(** * StickGame: a stick-removal game and its tabular learning agent

    A shallow embedding of [src/index.js] (the readline build) and of the
    terminal build of the same program, whose only difference in logic is
    [HumanPlayer.play].

    Conventions of the embedding.
    - Pile sizes, actions, rewards and counters are JavaScript Numbers that
      only ever hold small integers; they are modelled as [Z] (resp. [nat]
      for the two counters), and the two non-integer results the program can
      produce in those positions, [NaN] and [undefined], are constructors of
      [value].  Numbers hold integers exactly up to [MAX_SAFE_INTEGER]
      ([2^53 - 1]) in absolute value; beyond it the program's subtraction
      rounds and [Z] no longer follows it, so the properties that rest on the
      arithmetic of the pile are stated for sizes and actions within that
      bound.
    - The entries of the value table are IEEE 754 binary64 numbers; they are
      modelled by the kernel's primitive [float], which is the same format.
    - The value table is a JavaScript object used as a map.  Its property
      keys are the strings of the states; [String] is injective on [value],
      so the table is a [gmap value float].
    - Objects mutated in place become explicit state: the two players live in
      two cells of the game, addressed by [ref].  The program never registers
      one player object twice in a game, and neither does the embedding.
    - [Math.random()] and the text typed by the user are inputs of the
      functions that consume them; the value returned by the active player's
      [play] is an input of the turn. *)

From Stdlib Require Import ZArith List Bool Lia Ascii String.
From Stdlib Require Import Floats.
From stdpp Require Import gmap strings pretty.

Local Open Scope Z_scope.

(** ** JavaScript values that occur in the program *)

Inductive value :=
| Num (z : Z)
| NaN
| Undefined.

#[global] Instance value_eq_dec : EqDecision value.
Proof. solve_decision. Defined.

Definition value_encode (v : value) : Z + bool :=
  match v with
  | Num z => inl z
  | NaN => inr false
  | Undefined => inr true
  end.

Definition value_decode (x : Z + bool) : value :=
  match x with
  | inl z => Num z
  | inr false => NaN
  | inr true => Undefined
  end.

#[global] Instance value_countable : Countable value.
Proof.
  refine (inj_countable' value_encode value_decode _).
  intros []; reflexivity.
Defined.

(** What a call can do: return, throw, or stay suspended on an [await]
    whose promise has not been resolved. *)
Inductive error :=
| TypeError (msg : string)
| Error (msg : string)
| ConfigurationError (msg : string).

Inductive outcome (A : Type) :=
| Return (a : A)
| Throw (e : error)
| Pending.

Arguments Return {A} a.
Arguments Throw {A} e.
Arguments Pending {A}.

Module JS.

(** [a - b] on Numbers; [undefined] converts to [NaN].  The difference of
    two integers is the program's as long as the operands and the result
    are at most [2^53 - 1] in absolute value. *)
Definition sub (a b : value) : value :=
  match a, b with
  | Num x, Num y => Num (x - y)
  | _, _ => NaN
  end.

(** [a < b], [a <= b], [a > b]: false as soon as one side is not a number. *)
Definition lt (a b : value) : bool :=
  match a, b with
  | Num x, Num y => x <? y
  | _, _ => false
  end.

Definition le (a b : value) : bool :=
  match a, b with
  | Num x, Num y => x <=? y
  | _, _ => false
  end.

Definition gt (a b : value) : bool := lt b a.

(** [a !== b]: [NaN] is different from everything, itself included. *)
Definition strict_ne (a b : value) : bool :=
  match a, b with
  | Num x, Num y => negb (x =? y)
  | Undefined, Undefined => false
  | _, _ => true
  end.

(** [arr[i]]: [undefined] outside the array. *)
Definition index (arr : list value) (i : value) : value :=
  match i with
  | Num z => if 0 <=? z then nth (Z.to_nat z) arr Undefined else Undefined
  | _ => Undefined
  end.

(** [arr.length] *)
Definition length (arr : list value) : value := Num (Z.of_nat (List.length arr)).

(** [String(v)], as used for template strings; the digits are the program's
    for integers up to [2^53 - 1] in absolute value. *)
Definition to_string (v : value) : string :=
  match v with
  | Num z => pretty z
  | NaN => "NaN"
  | Undefined => "undefined"
  end.

(** [parseInt(s, 10)] on ASCII text: leading white space, an optional sign,
    then the longest run of decimal digits; [NaN] when there is no digit.
    The integer is the program's when the digits denote at most [2^53 - 1];
    a longer run is rounded by the program, and is out of the range of
    every index either way. *)
Definition is_space (c : ascii) : bool :=
  let n := Z.of_nat (nat_of_ascii c) in
  ((9 <=? n) && (n <=? 13)) || (n =? 32).

Definition digit (c : ascii) : option Z :=
  let n := Z.of_nat (nat_of_ascii c) in
  if (48 <=? n) && (n <=? 57) then Some (n - 48) else None.

Fixpoint skip_spaces (s : string) : string :=
  match s with
  | String c s' => if is_space c then skip_spaces s' else s
  | EmptyString => s
  end.

Fixpoint digits (s : string) (acc : option Z) : option Z :=
  match s with
  | String c s' =>
      match digit c with
      | Some d => digits s' (Some (10 * default 0 acc + d))
      | None => acc
      end
  | EmptyString => acc
  end.

Definition parseInt (s : string) : value :=
  let s := skip_spaces s in
  let '(neg, s) :=
    match s with
    | String "-"%char s' => (true, s')
    | String "+"%char s' => (false, s')
    | _ => (false, s)
    end in
  match digits s None with
  | Some n => Num (if neg then - n else n)
  | None => NaN
  end.

(** Numbers of the value table. *)

(** The integer [z] as a binary64 number; the program converts rewards and
    array lengths only. *)
Definition of_Z (z : Z) : float :=
  match z with
  | Z0 => 0%float
  | Zpos _ => of_uint63 (Uint63.of_Z z)
  | Zneg p => (- of_uint63 (Uint63.of_Z (Zpos p)))%float
  end.

(** [Math.floor(x)], used as an array index: an infinite or [NaN] result
    indexes no element of any array and is given as [NaN]. *)
Definition floor (x : float) : value :=
  match Prim2SF x with
  | S754_zero _ => Num 0
  | S754_finite s m e => Num (Z.shiftl (if s then Zneg m else Zpos m) e)
  | _ => NaN
  end.

(** A stored number is falsy when it is [NaN], [0] or [-0]. *)
Definition truthy (x : float) : bool := negb (is_nan x || is_zero x).

(** [v || 0] where [v] is the result of a property read. *)
Definition or0 (v : option float) : float :=
  match v with
  | Some x => if truthy x then x else 0%float
  | None => 0%float
  end.

(** [a < b] where both sides are results of property reads: [undefined]
    converts to [NaN] and the comparison is false. *)
Definition lt_read (a b : option float) : bool :=
  match a, b with
  | Some x, Some y => (x <? y)%float
  | _, _ => false
  end.

End JS.

(** [randChoice(values)], with [r] the number drawn by [Math.random()]. *)
Definition randChoice (r : float) (values : list value) : value :=
  JS.index values
    (JS.floor (r * JS.of_Z (Z.of_nat (List.length values)))%float).

(** ** Transition records and the base player *)

Record transition := {
  action : value;
  prevState : value;
  nextState : value;
  reward : Z
}.

Definition set_nextState (n : value) (tr : transition) : transition :=
  {| action := action tr; prevState := prevState tr;
     nextState := n; reward := reward tr |}.

Definition set_reward (r : Z) (tr : transition) : transition :=
  {| action := action tr; prevState := prevState tr;
     nextState := nextState tr; reward := r |}.

(** [arr[arr.length - 1] = f(arr[arr.length - 1])] *)
Definition update_last (f : transition -> transition)
    (arr : list transition) : list transition :=
  alter f (List.length arr - 1)%nat arr.

Module Player.

Record t := {
  history : list transition;
  rewards : list Z;
  winCount : nat;
  loseCount : nat
}.

Definition new : t :=
  {| history := []; rewards := []; winCount := 0; loseCount := 0 |}.

Definition resetStats (p : t) : t :=
  {| history := history p; rewards := []; winCount := 0; loseCount := 0 |}.

Definition gameRestart (p : t) : t :=
  {| history := []; rewards := rewards p;
     winCount := winCount p; loseCount := loseCount p |}.

Definition play (state : value) (possibleNextStates : list value)
    : outcome value :=
  Return (JS.index possibleNextStates (Num 0)).

Definition turnFinished (isPlayerTurn isGameOver : bool)
    (prevState nextState action : value) (p : t) : t :=
  if isPlayerTurn then
    let pushed :=
      history p ++ [ {| action := action; prevState := prevState;
                        nextState := NaN; reward := 0 |} ] in
    if isGameOver then
      {| history := update_last (set_reward (-1)) pushed;
         rewards := rewards p ++ [-1];
         winCount := winCount p;
         loseCount := (loseCount p + 1)%nat |}
    else
      {| history := pushed; rewards := rewards p;
         winCount := winCount p; loseCount := loseCount p |}
  else if (0 <? List.length (history p))%nat then
    let filled := update_last (set_nextState nextState) (history p) in
    if isGameOver then
      {| history := update_last (set_reward 1) filled;
         rewards := rewards p ++ [1];
         winCount := (winCount p + 1)%nat;
         loseCount := loseCount p |}
    else
      {| history := filled; rewards := rewards p;
         winCount := winCount p; loseCount := loseCount p |}
  else p.

End Player.

(** ** The learning agent *)

Module PlayerAI.

Record t := {
  super : Player.t;
  eps : float;
  lr : float;
  values : gmap value float
}.

Definition new (values : gmap value float) (eps lr : float) : t :=
  {| super := Player.new; eps := eps; lr := lr; values := values |}.

(** [possibleNextStates.reduce((min, current) => ...)] without an initial
    value: the first element seeds the accumulator, and an empty array makes
    [reduce] throw. *)
Definition greedyStep (ai : t) (currentState : value)
    (possibleNextStates : list value) : outcome value :=
  match possibleNextStates with
  | [] => Throw (TypeError "Reduce of empty array with no initial value")
  | first :: rest =>
      Return
        (fold_left
           (fun min current =>
              if JS.lt_read (values ai !! current) (values ai !! min)
              then current else min)
           rest first)
  end.

(** [r] is the draw compared with [eps], [r'] the one made by [randChoice]
    when the agent explores. *)
Definition play (r r' : float) (ai : t) (state : value)
    (possibleNextStates : list value) : outcome value :=
  if (r <? eps ai)%float then Return (randChoice r' possibleNextStates)
  else greedyStep ai state possibleNextStates.

(** The body of the loop of [train]. *)
Definition train_body (lr : float) (vals : gmap value float)
    (action : transition) : gmap value float :=
  let prevStateValue := JS.or0 (vals !! prevState action) in
  let nextStateValue := JS.or0 (vals !! nextState action) in
  let prevStateValue :=
    if reward action =? 0
    then (prevStateValue + lr * (nextStateValue - prevStateValue))%float
    else (prevStateValue + lr * (JS.of_Z (reward action) - prevStateValue))%float in
  <[prevState action := prevStateValue]> vals.

(** [for (const action of records) { ... }] *)
Fixpoint train_loop (lr : float) (records : list transition)
    (vals : gmap value float) : gmap value float :=
  match records with
  | [] => vals
  | action :: rest => train_loop lr rest (train_body lr vals action)
  end.

(** [this.history.reverse()] reverses the array in place and returns it. *)
Definition train (ai : t) : t :=
  let reversed := rev (Player.history (super ai)) in
  {| super := {| Player.history := reversed;
                 Player.rewards := Player.rewards (super ai);
                 Player.winCount := Player.winCount (super ai);
                 Player.loseCount := Player.loseCount (super ai) |};
     eps := eps ai;
     lr := lr ai;
     values := train_loop (lr ai) reversed (values ai) |}.

End PlayerAI.

Module RandomPlayer.

Definition play (r : float) (state : value) (possibleNextStates : list value)
    : outcome value :=
  Return (randChoice r possibleNextStates).

End RandomPlayer.

(** ** The human player *)

Module HumanPlayer.

(** [action !== NaN && action > 0 && action <= possibleNextStates.length] *)
Definition accepted (action : value) (possibleNextStates : list value) : bool :=
  JS.strict_ne action NaN && JS.gt action (Num 0)
  && JS.le action (JS.length possibleNextStates).

(** The readline build: [userInput] is the line returned by
    [readline.question]. *)
Definition play (userInput : string) (state : value)
    (possibleNextStates : list value) : outcome value :=
  let action := JS.parseInt userInput in
  if accepted action possibleNextStates
  then Return (JS.index possibleNextStates (JS.sub action (Num 1)))
  else Throw (Error ("Bad action: " +:+ JS.to_string action)).

End HumanPlayer.

(** The terminal of the second build: the keys that will be pressed, in
    order, and the texts written so far. *)
Module Term.

Record t := {
  keys : list string;
  written : list string
}.

Definition eol : string := String "010"%char (String "013"%char EmptyString).

(** [print(text)], whose missing argument is the empty text. *)
Definition print (text : string) (written : list string) : list string :=
  written ++ [text +:+ eol].

Definition question : string := "Take 1, 2 or 3 sticks ?: ".

(** [print(); input(question)] up to the [await]. *)
Definition prompt (written : list string) : list string :=
  print "" written ++ [question].

(** [print(); print(`Bad number: ${action}`)] *)
Definition bad_number (action : value) (written : list string) : list string :=
  print ("Bad number: " +:+ JS.to_string action) (print "" written).

End Term.

Module HumanPlayerTerm.

(** The terminal build: [while(true)] around a prompt.  Each round prints an
    empty line, writes the question and awaits the next key; the call stays
    suspended when no key comes any more. *)
Fixpoint play_loop (possibleNextStates : list value) (keys : list string)
    (written : list string) : outcome value * Term.t :=
  let written := Term.prompt written in
  match keys with
  | [] => (Pending, {| Term.keys := []; Term.written := written |})
  | userInput :: keys =>
      let action := JS.parseInt userInput in
      if HumanPlayer.accepted action possibleNextStates
      then (Return (JS.index possibleNextStates (JS.sub action (Num 1))),
            {| Term.keys := keys; Term.written := written |})
      else play_loop possibleNextStates keys (Term.bad_number action written)
  end.

Definition play (term : Term.t) (state : value)
    (possibleNextStates : list value) : outcome value * Term.t :=
  play_loop possibleNextStates (Term.keys term) (Term.written term).

(** What is on the terminal after the inputs [bad] have been turned down. *)
Definition turned_down (bad : list string) (written : list string)
    : list string :=
  fold_left
    (fun written userInput =>
       Term.bad_number (JS.parseInt userInput) (Term.prompt written))
    bad written.

End HumanPlayerTerm.

(** ** The game engine *)

(** The two player objects registered in a game. *)
Inductive ref := P1 | P2.

Module StickGame.

Record t := {
  player1 : Player.t;
  player2 : Player.t;
  size : Z;
  actions : list Z;
  nstick : value;
  finished : bool;
  player : bool
}.

Definition deref (g : t) (r : ref) : Player.t :=
  match r with
  | P1 => player1 g
  | P2 => player2 g
  end.

(** A method call [r.m(...)] that mutates the object behind [r]. *)
Definition call (r : ref) (m : Player.t -> Player.t) (g : t) : t :=
  {| player1 := match r with P1 => m (player1 g) | P2 => player1 g end;
     player2 := match r with P1 => player2 g | P2 => m (player2 g) end;
     size := size g; actions := actions g; nstick := nstick g;
     finished := finished g; player := player g |}.

Definition set_nstick (n : value) (g : t) : t :=
  {| player1 := player1 g; player2 := player2 g; size := size g;
     actions := actions g; nstick := n; finished := finished g;
     player := player g |}.

Definition set_finished (b : bool) (g : t) : t :=
  {| player1 := player1 g; player2 := player2 g; size := size g;
     actions := actions g; nstick := nstick g; finished := b;
     player := player g |}.

Definition set_player (b : bool) (g : t) : t :=
  {| player1 := player1 g; player2 := player2 g; size := size g;
     actions := actions g; nstick := nstick g; finished := finished g;
     player := b |}.

(** [startPlayer] is 0 or 1; [!!startPlayer] makes it a boolean. *)
Definition restart (startPlayer : Z) (g : t) : t :=
  let g := set_nstick (Num (size g)) g in
  let g := set_finished false g in
  let g := set_player (negb (startPlayer =? 0)) g in
  let g := call P1 Player.gameRestart g in
  call P2 Player.gameRestart g.

Definition new (player1 player2 : Player.t) (startPlayer : Z) (size : Z)
    (actions : list Z) : t :=
  restart startPlayer
    {| player1 := player1; player2 := player2; size := size;
       actions := actions; nstick := Undefined; finished := false;
       player := false |}.

Definition isFinished (g : t) : bool := finished g.

Definition getPlayer (g : t) (opponent : bool) : ref :=
  if (negb (player g) && negb opponent) || (player g && opponent)
  then P1 else P2.

(** [this.actions.map(action => this.nstick - action)] *)
Definition possibleNStick (g : t) : list value :=
  map (fun action => JS.sub (nstick g) (Num action)) (actions g).

(** What [playNextTurn] does once the active player's [play] has returned
    [n]. *)
Definition turn (g : t) (n : value) : t :=
  let mover := getPlayer g false in
  let opponent := getPlayer g true in
  let prevNStick := nstick g in
  let g := set_nstick n g in
  let g := if JS.le (nstick g) (Num 0) then set_finished true g else g in
  let g :=
    call mover
      (Player.turnFinished true (finished g) prevNStick (nstick g)
         (JS.sub prevNStick (nstick g))) g in
  let g :=
    call opponent
      (Player.turnFinished false (finished g) prevNStick (nstick g)
         (JS.sub prevNStick (nstick g))) g in
  set_player (negb (player g)) g.

(** [play] is the [play] method of the active player, closed over the
    player's own state, its random draws and its input.  An exception thrown
    by [play] leaves [playNextTurn] before anything is assigned. *)
Definition playNextTurn (play : value -> list value -> outcome value)
    (g : t) : outcome t :=
  match play (nstick g) (possibleNStick g) with
  | Return n => Return (turn g n)
  | Throw e => Throw e
  | Pending => Pending
  end.

(** [while(!game.isFinished()) game.playNextTurn()], where [rets] lists the
    values returned by the successive calls of [play]; the game is left as
    it stands when they are used up. *)
Fixpoint playTurns (rets : list value) (g : t) : t :=
  match rets with
  | [] => g
  | n :: rets => if isFinished g then g else playTurns rets (turn g n)
  end.

End StickGame.

(** ** The update pass and the greedy choice as the specification words them *)

Module Spec.

(** [table.get(key, default 0)] *)
Definition lookup (vals : gmap value float) (key : value) : float :=
  default 0%float (vals !! key).

(** The entry at [key], if there is one, is a number other than [-0]. *)
Definition plain_at (vals : gmap value float) (key : value) : Prop :=
  match vals !! key with
  | Some x => is_nan x = false /\ (is_zero x = true -> x = 0%float)
  | None => True
  end.

(** One record of the update pass: [v_prev] moves towards [v_next] when the
    reward is 0 and towards the reward otherwise. *)
Definition update (lr : float) (vals : gmap value float)
    (rec : transition) : gmap value float :=
  let v_prev := lookup vals (prevState rec) in
  let v_next := lookup vals (nextState rec) in
  <[prevState rec :=
      if reward rec =? 0
      then (v_prev + lr * (v_next - v_prev))%float
      else (v_prev + lr * (JS.of_Z (reward rec) - v_prev))%float]> vals.

(** The records are visited from the most recent one to the oldest one. *)
Definition train (lr : float) (history : list transition)
    (vals : gmap value float) : gmap value float :=
  fold_right (fun rec vals => update lr vals rec) vals history.

(** The first state, in the given order, whose value is minimum. *)
Definition greedyStep (vals : gmap value float)
    (possibleNextStates : list value) : option value :=
  match possibleNextStates with
  | [] => None
  | first :: rest =>
      Some
        (fold_left
           (fun min current =>
              if (lookup vals current <? lookup vals min)%float
              then current else min)
           rest first)
  end.

End Spec.

(** ** Inputs used in the examples *)

Module Examples.

(** A table that holds [NaN] for state 2, and one record of a turn that
    went from 2 to 1 without ending the game. *)
Definition nan_agent : PlayerAI.t :=
  {| PlayerAI.super :=
       {| Player.history :=
            [ {| action := Num 1; prevState := Num 2;
                 nextState := Num 1; reward := 0 |} ];
          Player.rewards := []; Player.winCount := 0;
          Player.loseCount := 0 |};
     PlayerAI.eps := 0%float;
     PlayerAI.lr := 0.5%float;
     PlayerAI.values := {[ Num 2 := nan ]} |}.

(** An agent that starts from an empty table, wins one game in which it
    took two sticks out of three, and is trained on it: its table is then
    [{3: 0.5}]. *)
Definition won_from_3 : PlayerAI.t :=
  PlayerAI.train
    {| PlayerAI.super :=
         {| Player.history :=
              [ {| action := Num 2; prevState := Num 3;
                   nextState := Num 0; reward := 1 |} ];
            Player.rewards := [1]; Player.winCount := 1;
            Player.loseCount := 0 |};
       PlayerAI.eps := 0%float;
       PlayerAI.lr := 0.5%float;
       PlayerAI.values := ∅ |}.

(** The records of the loser of an episode 5, 3, 1, and two agents that
    hold them with the same table and learning rate and differ in
    everything else. *)
Definition episode : list transition :=
  [ {| action := Num 1; prevState := Num 5; nextState := Num 3; reward := 0 |};
    {| action := Num 1; prevState := Num 3; nextState := Num 1; reward := 0 |};
    {| action := Num 1; prevState := Num 1; nextState := NaN; reward := -1 |} ].

Definition agent_a : PlayerAI.t :=
  {| PlayerAI.super :=
       {| Player.history := episode; Player.rewards := [1; -1];
          Player.winCount := 1; Player.loseCount := 1 |};
     PlayerAI.eps := 0.5%float;
     PlayerAI.lr := 0.5%float;
     PlayerAI.values := {[ Num 3 := 0.25%float ]} |}.

Definition agent_b : PlayerAI.t :=
  {| PlayerAI.super :=
       {| Player.history := episode; Player.rewards := [];
          Player.winCount := 7; Player.loseCount := 0 |};
     PlayerAI.eps := 0%float;
     PlayerAI.lr := 0.5%float;
     PlayerAI.values := {[ Num 3 := 0.25%float ]} |}.

(** A pile of two sticks with the default actions. *)
Definition pile2 : StickGame.t :=
  StickGame.set_nstick (Num 2)
    (StickGame.new Player.new Player.new 0 24 [1; 2; 3]).

(** A pile of one stick: the first move ends the game. *)
Definition pile1 : StickGame.t :=
  StickGame.new Player.new Player.new 0 1 [1; 2; 3].

(** A pile of three sticks. *)
Definition game3 : StickGame.t :=
  StickGame.new Player.new Player.new 0 3 [1; 2; 3].

(** No action is allowed. *)
Definition no_action : StickGame.t :=
  StickGame.new Player.new Player.new 0 24 [].

(** Keys pressed in front of three successors: a letter, a digit that is
    out of range, a valid digit, and one key more. *)
Definition typed : Term.t :=
  {| Term.keys := ["x"; "9"; "3"; "1"]; Term.written := [] |}.

End Examples.

(** ** The bookkeeping invariant of a game

    [P] is a property of the piles returned by [play].  [g0] is the game
    before [restart], from which the statistics are counted. *)

Module Inv.

(** The opponent's notification has reached the record, and the game went
    on. *)
Definition settled (P : value -> Prop) (tr : transition) : Prop :=
  P (nextState tr) /\ reward tr = 0.

(** The record still holds the placeholder. *)
Definition pending (r : Z) (tr : transition) : Prop :=
  nextState tr = NaN /\ reward tr = r.

Definition same_stats (p q : Player.t) : Prop :=
  Player.rewards p = Player.rewards q
  /\ Player.winCount p = Player.winCount q
  /\ Player.loseCount p = Player.loseCount q.

Definition lost (p q : Player.t) : Prop :=
  Player.rewards p = Player.rewards q ++ [-1]
  /\ Player.winCount p = Player.winCount q
  /\ Player.loseCount p = (Player.loseCount q + 1)%nat.

Definition won (p q : Player.t) : Prop :=
  Player.rewards p = Player.rewards q ++ [1]
  /\ Player.winCount p = (Player.winCount q + 1)%nat
  /\ Player.loseCount p = Player.loseCount q.

(** The game is in progress; [moved] tells whether a turn has been played
    since [restart].  The player who moved last holds one pending record. *)
Definition in_progress (P : value -> Prop) (g0 g : StickGame.t)
    (moved : bool) : Prop :=
  StickGame.finished g = false
  /\ (forall r, same_stats (StickGame.deref g r) (StickGame.deref g0 r))
  /\ Forall (settled P)
       (Player.history (StickGame.deref g (StickGame.getPlayer g false)))
  /\ if moved
     then exists h tr,
         Player.history (StickGame.deref g (StickGame.getPlayer g true))
         = h ++ [tr]
         /\ Forall (settled P) h /\ pending 0 tr
     else Player.history (StickGame.deref g (StickGame.getPlayer g true)) = []
          /\ Player.history (StickGame.deref g (StickGame.getPlayer g false)) = [].

(** The game is over; [moved] tells whether the winner had moved.  After
    the last flip of the pointer the loser is the opponent of the active
    player. *)
Definition over (P : value -> Prop) (g0 g : StickGame.t) (moved : bool) : Prop :=
  StickGame.finished g = true
  /\ lost (StickGame.deref g (StickGame.getPlayer g true))
       (StickGame.deref g0 (StickGame.getPlayer g true))
  /\ (exists h tr,
         Player.history (StickGame.deref g (StickGame.getPlayer g true))
         = h ++ [tr]
         /\ Forall (settled P) h /\ pending (-1) tr)
  /\ if moved
     then won (StickGame.deref g (StickGame.getPlayer g false))
            (StickGame.deref g0 (StickGame.getPlayer g false))
          /\ exists h tr,
              Player.history (StickGame.deref g (StickGame.getPlayer g false))
              = h ++ [tr]
              /\ Forall (settled P) h /\ P (nextState tr) /\ reward tr = 1
     else same_stats (StickGame.deref g (StickGame.getPlayer g false))
            (StickGame.deref g0 (StickGame.getPlayer g false))
          /\ Player.history (StickGame.deref g (StickGame.getPlayer g false)) = [].

(** Whether the winner has moved when a game that starts with flag [moved]
    is played with the returns [rets]. *)
Definition winner_moved (moved : bool) (rets : list value) : bool :=
  match rets with
  | [] => moved
  | n :: _ => moved || negb (JS.le n (Num 0))
  end.

End Inv.

(** The first move already ends the game. *)
Definition first_move_ends (rets : list value) : bool :=
  match rets with
  | [] => false
  | n :: _ => JS.le n (Num 0)
  end.

Definition is_number (v : value) : bool :=
  match v with
  | Num _ => true
  | _ => false
  end.

(** ** The rest of the program: display, training loop, interactive loop *)

(** [Math.max(a, b)]: [NaN] as soon as one argument is, and [+0] above
    [-0]. *)
Definition Math_max (a b : float) : float :=
  if is_nan a || is_nan b then nan
  else if (a <? b)%float then b
  else if (b <? a)%float then a
  else if get_sign a then b else a.

(** The literals [0.996] and [0.05], as the binary64 numbers they denote. *)
Definition eps_decay : float := 0x1.fdf3b645a1cacp-1%float.
Definition eps_min : float := 0x1.999999999999ap-5%float.

(** [ai.eps = Math.max(ai.eps * 0.996, 0.05)], applied to both agents after
    each episode of the training loop. *)
Definition decay (ai : PlayerAI.t) : PlayerAI.t :=
  {| PlayerAI.super := PlayerAI.super ai;
     PlayerAI.eps := Math_max (PlayerAI.eps ai * eps_decay)%float eps_min;
     PlayerAI.lr := PlayerAI.lr ai;
     PlayerAI.values := PlayerAI.values ai |}.

(** [gamePrint += "| "], [n] times. *)
Fixpoint bars (n : nat) : string :=
  match n with
  | O => ""
  | S n => bars n +:+ "| "
  end.

(** [display()]: the line handed to [console.log] (resp. [print]).  The
    loop [for (i = 0; i < this.nstick; i++)] does not run when [nstick] is
    not a number. *)
Definition display (g : StickGame.t) : string :=
  match StickGame.nstick g with
  | Num z => bars (Z.to_nat z)
  | _ => ""
  end.

(** One round of the interactive loop of [main], where the human is
    [player1] and the agent [player2]: [playerAI.resetStats();
    game.restart(0);] then the turns. *)
Definition main_round (rets : list value) (g : StickGame.t) : StickGame.t :=
  StickGame.playTurns rets
    (StickGame.restart 0 (StickGame.call P2 Player.resetStats g)).

(** [if (playerAI.winCount > 0) "Game Over..." else "You win !"] *)
Definition verdict (g : StickGame.t) : string :=
  if (0 <? Player.winCount (StickGame.player2 g))%nat
  then "Game Over..." else "You win !".

(** [Number.MAX_SAFE_INTEGER]: up to it, in absolute value, Numbers hold
    integers exactly and their differences are exact. *)
Definition MAX_SAFE_INTEGER : Z := 2 ^ 53 - 1.

(** [n] is one of the successors offered to the active player. *)
Definition offered (n : value) (g : StickGame.t) : bool :=
  existsb (fun s => bool_decide (s = n)) (StickGame.possibleNStick g).

(** Every value returned by [play] in the course of [playTurns rets g] is
    one of the successors offered at that turn. *)
Fixpoint legal (rets : list value) (g : StickGame.t) : bool :=
  match rets with
  | [] => true
  | n :: rets =>
      StickGame.isFinished g || (offered n g && legal rets (StickGame.turn g n))
  end.

(** The statistics agree with one another: one count per logged reward,
    every logged reward is [1] or [-1], and their sum is the difference of
    the counts. *)
Definition sum (l : list Z) : Z := fold_right Z.add 0 l.

Definition consistent (p : Player.t) : Prop :=
  List.length (Player.rewards p) = (Player.winCount p + Player.loseCount p)%nat
  /\ Forall (fun r => r = 1 \/ r = -1) (Player.rewards p)
  /\ sum (Player.rewards p)
     = Z.of_nat (Player.winCount p) - Z.of_nat (Player.loseCount p).

(** The value read for a state by the comparison of [greedyStep]. *)
Definition read (ai : PlayerAI.t) (state : value) : option float :=
  PlayerAI.values ai !! state.

(** Every state of [l] is in the table with a number. *)
Definition all_numbers (vals : gmap value float) (l : list value) : Prop :=
  Forall (fun s => exists x, vals !! s = Some x /\ is_nan x = false) l.

(** An agent whose table ranks the three successors of a pile of 4. *)
Definition ranked : PlayerAI.t :=
  PlayerAI.new
    {[ Num 3 := 0.5%float; Num 2 := 0.25%float; Num 1 := 0.25%float ]}
    0%float 0.5%float.

(** ** Properties of the update pass *)

Lemma train_loop_app lr (l1 l2 : list transition) (vals : gmap value float) :
  PlayerAI.train_loop lr (l1 ++ l2) vals
  = PlayerAI.train_loop lr l2 (PlayerAI.train_loop lr l1 vals).
Proof.
  revert vals. induction l1 as [|a l1 IH]; intros vals; simpl.
  - reflexivity.
  - apply IH.
Qed.

(** The loop over the reversed history visits the newest record first. *)
Lemma train_loop_rev lr (h : list transition) (vals : gmap value float) :
  PlayerAI.train_loop lr (rev h) vals
  = fold_right (fun rec vals => PlayerAI.train_body lr vals rec) vals h.
Proof.
  induction h as [|a h IH]; simpl.
  - reflexivity.
  - rewrite train_loop_app, IH. reflexivity.
Qed.

(** On a plain entry, and on a missing one, [|| 0] is the read of the
    specification. *)
Lemma or0_plain (vals : gmap value float) (key : value) :
  Spec.plain_at vals key -> JS.or0 (vals !! key) = Spec.lookup vals key.
Proof.
  unfold Spec.plain_at, Spec.lookup, JS.or0, JS.truthy.
  destruct (vals !! key) as [x |]; [| reflexivity].
  intros [Hnan Hzero]. rewrite Hnan. simpl.
  destruct (is_zero x); simpl; [| reflexivity].
  symmetry. apply Hzero. reflexivity.
Qed.

(** Outside the tables of numbers: [train] reads through [|| 0], so an
    entry that holds [NaN] is read as 0, where a read that returned the
    stored value would propagate it. *)
Lemma train_reads_stored_NaN_as_0 :
  PlayerAI.values (PlayerAI.train Examples.nan_agent) !! Num 2 = Some 0%float
  /\ Spec.train (PlayerAI.lr Examples.nan_agent)
       (Player.history (PlayerAI.super Examples.nan_agent))
       (PlayerAI.values Examples.nan_agent) !! Num 2 = Some nan
  /\ PlayerAI.values (PlayerAI.train Examples.nan_agent)
     <> Spec.train (PlayerAI.lr Examples.nan_agent)
          (Player.history (PlayerAI.super Examples.nan_agent))
          (PlayerAI.values Examples.nan_agent).
Proof.
  assert (Hcode : PlayerAI.values (PlayerAI.train Examples.nan_agent) !! Num 2
                  = Some 0%float) by reflexivity.
  assert (Hspec : Spec.train (PlayerAI.lr Examples.nan_agent)
                    (Player.history (PlayerAI.super Examples.nan_agent))
                    (PlayerAI.values Examples.nan_agent) !! Num 2 = Some nan)
    by reflexivity.
  split; [exact Hcode | split; [exact Hspec |]].
  intros E. rewrite E, Hspec in Hcode.
  apply (f_equal (fun o => is_nan (default 0%float o))) in Hcode.
  lazy in Hcode. discriminate.
Qed.

(** C1. [train] visits the records from the most recent one to the oldest
    one; each record writes, at key [prevState], [v_prev + lr * (v_next -
    v_prev)] when its reward is 0 and [v_prev + lr * (reward - v_prev)]
    otherwise, and leaves every other key alone; [v_prev] and [v_next] are
    the stored values, with 0 for a missing key: on a table of numbers the
    update of a record is the update of the specification.  The reads go
    through [|| 0], which also gives 0 for an entry that holds [NaN] or a
    zero. *)
Theorem train_reverse_td_update :
  (forall ai : PlayerAI.t,
      PlayerAI.values (PlayerAI.train ai)
      = fold_right (fun rec vals => PlayerAI.train_body (PlayerAI.lr ai) vals rec)
          (PlayerAI.values ai) (Player.history (PlayerAI.super ai)))
  /\ (forall lr (vals : gmap value float) (rec : transition) (key : value),
        let v_prev := JS.or0 (vals !! prevState rec) in
        let v_next := JS.or0 (vals !! nextState rec) in
        PlayerAI.train_body lr vals rec !! key
        = if decide (key = prevState rec)
          then Some (if reward rec =? 0
                     then (v_prev + lr * (v_next - v_prev))%float
                     else (v_prev + lr * (JS.of_Z (reward rec) - v_prev))%float)
          else vals !! key)
  /\ JS.or0 None = 0%float
  /\ (forall x, JS.or0 (Some x)
                = if is_nan x || is_zero x then 0%float else x)
  /\ (forall lr (vals : gmap value float) (rec : transition),
        Spec.plain_at vals (prevState rec) ->
        Spec.plain_at vals (nextState rec) ->
        PlayerAI.train_body lr vals rec = Spec.update lr vals rec)
  /\ JS.of_Z 1 = 1%float /\ JS.of_Z (-1) = (-1)%float.
Proof.
  split; [| split; [| split; [| split; [| split]]]].
  - intros ai. unfold PlayerAI.train. simpl. apply train_loop_rev.
  - intros lr vals rec key v_prev v_next. unfold PlayerAI.train_body.
    destruct (decide (key = prevState rec)) as [->|Hkey].
    + rewrite lookup_insert_eq. destruct (reward rec =? 0); reflexivity.
    + apply lookup_insert_ne. congruence.
  - reflexivity.
  - intros x. unfold JS.or0, JS.truthy.
    destruct (is_nan x || is_zero x); reflexivity.
  - intros lr vals rec Hprev Hnext. unfold PlayerAI.train_body, Spec.update.
    rewrite (or0_plain _ _ Hprev), (or0_plain _ _ Hnext). reflexivity.
  - split; reflexivity.
Qed.

Lemma train_reverse_td_update_witness :
  let vals : gmap value float := {[ Num 3 := 0.25%float ]} in
  let rec := {| action := Num 1; prevState := Num 5; nextState := Num 3;
                reward := 0 |} in
  Spec.plain_at vals (prevState rec)
  /\ Spec.plain_at vals (nextState rec)
  /\ PlayerAI.train_body 0.5%float vals rec = Spec.update 0.5%float vals rec
  /\ PlayerAI.train_body 0.5%float vals rec !! Num 5 = Some 0.125%float
  /\ PlayerAI.values (PlayerAI.train Examples.agent_a)
     = fold_right
         (fun rec vals =>
            PlayerAI.train_body (PlayerAI.lr Examples.agent_a) vals rec)
         (PlayerAI.values Examples.agent_a)
         (Player.history (PlayerAI.super Examples.agent_a)).
Proof.
  pose proof train_reverse_td_update as (Hpass & _ & _ & _ & Hupdate & _).
  assert (Hprev : Spec.plain_at {[ Num 3 := 0.25%float ]} (Num 5))
    by exact I.
  assert (Hnext : Spec.plain_at {[ Num 3 := 0.25%float ]} (Num 3)).
  { split; [reflexivity |]. intros H. discriminate H. }
  split; [exact Hprev | split; [exact Hnext | split; [| split]]].
  - exact (Hupdate 0.5%float {[ Num 3 := 0.25%float ]}
             {| action := Num 1; prevState := Num 5; nextState := Num 3;
                reward := 0 |} Hprev Hnext).
  - reflexivity.
  - exact (Hpass Examples.agent_a).
Defined.

(** ** Properties of the greedy choice *)

(** A comparison with a value that is not in the table is false, so an
    accumulator that is not in the table is never replaced. *)
Lemma greedy_fold_unseen (vals : gmap value float) (rest : list value)
    (first : value) :
  vals !! first = None ->
  fold_left
    (fun min current =>
       if JS.lt_read (vals !! current) (vals !! min) then current else min)
    rest first = first.
Proof.
  intros Hfirst. induction rest as [|s rest IH]; simpl.
  - reflexivity.
  - rewrite Hfirst. destruct (vals !! s); simpl; exact IH.
Qed.

Lemma greedyStep_unseen_first (ai : PlayerAI.t) (state first : value)
    (rest : list value) :
  PlayerAI.values ai !! first = None ->
  PlayerAI.greedyStep ai state (first :: rest) = Return first.
Proof.
  intros H. unfold PlayerAI.greedyStep. f_equal.
  apply greedy_fold_unseen. exact H.
Qed.

(** C2 at the table [{3: 0.5}] and the successors [[3; 2; 1]] of a pile of
    4: states 2 and 1 are not in the table and count for 0 in the
    specification, which picks 2; the source compares [undefined] with 0.5,
    keeps the accumulator and returns 3, also through [play] when the draw
    is not below [eps]. *)
Theorem greedyStep_keeps_seen_state_over_unseen :
  PlayerAI.values Examples.won_from_3 = {[ Num 3 := 0.5%float ]}
  /\ PlayerAI.greedyStep Examples.won_from_3 (Num 4) [Num 3; Num 2; Num 1]
     = Return (Num 3)
  /\ PlayerAI.play 0.25%float 0.75%float Examples.won_from_3 (Num 4)
       [Num 3; Num 2; Num 1] = Return (Num 3)
  /\ Spec.greedyStep (PlayerAI.values Examples.won_from_3)
       [Num 3; Num 2; Num 1] = Some (Num 2).
Proof.
  split; [| split; [| split]]; reflexivity.
Qed.

(** C9. The table computed by [train] is a function of the history, the
    table and the learning rate alone: two agents that agree on these three,
    whatever their exploration rates and statistics, end with the same
    table.  [train] takes no random draw. *)
Theorem train_deterministic (a b : PlayerAI.t) :
  Player.history (PlayerAI.super a) = Player.history (PlayerAI.super b) ->
  PlayerAI.values a = PlayerAI.values b ->
  PlayerAI.lr a = PlayerAI.lr b ->
  PlayerAI.values (PlayerAI.train a) = PlayerAI.values (PlayerAI.train b).
Proof.
  intros Hh Hv Hlr. unfold PlayerAI.train. simpl.
  rewrite Hh, Hv, Hlr. reflexivity.
Qed.

Lemma train_deterministic_witness :
  PlayerAI.values (PlayerAI.train Examples.agent_a)
  = PlayerAI.values (PlayerAI.train Examples.agent_b).
Proof.
  apply (train_deterministic Examples.agent_a Examples.agent_b); reflexivity.
Defined.

(** ** The history across the methods *)

Lemma update_last_length (f : transition -> transition) (arr : list transition) :
  List.length (update_last f arr) = List.length arr.
Proof. unfold update_last. apply length_alter. Qed.

Lemma update_last_snoc (f : transition -> transition) (h : list transition)
    (tr : transition) :
  update_last f (h ++ [tr]) = h ++ [f tr].
Proof.
  unfold update_last. rewrite length_app. simpl.
  replace (List.length h + 1 - 1)%nat with (List.length h + 0)%nat by lia.
  rewrite alter_app_r. reflexivity.
Qed.

Lemma turnFinished_history_length (isPlayerTurn isGameOver : bool)
    (prev next act : value) (p : Player.t) :
  (List.length (Player.history p)
   <= List.length (Player.history
                     (Player.turnFinished isPlayerTurn isGameOver prev next act p)))%nat.
Proof.
  unfold Player.turnFinished.
  destruct isPlayerTurn, isGameOver; simpl;
    try destruct (0 <? List.length (Player.history p))%nat; simpl;
    rewrite ?update_last_length, ?length_app; simpl; lia.
Qed.

(** C10. [train] keeps every record of the episode and leaves the history
    reversed in place; [gameRestart], which [restart] calls on both
    players, is what empties it: [resetStats] leaves it as it is and
    [turnFinished] never shortens it. *)
Theorem train_keeps_history_reversed :
  (forall ai : PlayerAI.t,
      Player.history (PlayerAI.super (PlayerAI.train ai))
      = rev (Player.history (PlayerAI.super ai)))
  /\ (forall ai : PlayerAI.t,
        List.length (Player.history (PlayerAI.super (PlayerAI.train ai)))
        = List.length (Player.history (PlayerAI.super ai)))
  /\ (forall p : Player.t, Player.history (Player.gameRestart p) = [])
  /\ (forall (startPlayer : Z) (g : StickGame.t) (r : ref),
        Player.history (StickGame.deref (StickGame.restart startPlayer g) r) = [])
  /\ (forall p : Player.t, Player.history (Player.resetStats p) = Player.history p)
  /\ (forall (isPlayerTurn isGameOver : bool) (prev next act : value) (p : Player.t),
        (List.length (Player.history p)
         <= List.length
              (Player.history
                 (Player.turnFinished isPlayerTurn isGameOver prev next act p)))%nat).
Proof.
  repeat split.
  - intros ai. unfold PlayerAI.train. simpl. apply length_rev.
  - intros startPlayer g []; reflexivity.
  - apply turnFinished_history_length.
Qed.

(** ** One turn of the engine *)

Lemma turn_nstick (g : StickGame.t) (n : value) :
  StickGame.nstick (StickGame.turn g n) = n.
Proof.
  unfold StickGame.turn. simpl. destruct (JS.le n (Num 0)); reflexivity.
Qed.

Lemma turn_finished (g : StickGame.t) (n : value) :
  StickGame.finished (StickGame.turn g n)
  = JS.le n (Num 0) || StickGame.finished g.
Proof.
  unfold StickGame.turn. simpl. destruct (JS.le n (Num 0)); reflexivity.
Qed.

Lemma turn_player (g : StickGame.t) (n : value) :
  StickGame.player (StickGame.turn g n) = negb (StickGame.player g).
Proof.
  unfold StickGame.turn. simpl. destruct (JS.le n (Num 0)); reflexivity.
Qed.



(** C5. A turn taken while the game is in progress ends the game exactly
    when the pile returned by [play] is at most 0, and flips the active
    player whether or not the move ended the game. *)
Theorem playNextTurn_finished_iff_pile_le_0 (g : StickGame.t)
    (play : value -> list value -> outcome value) (n : value) :
  StickGame.isFinished g = false ->
  play (StickGame.nstick g) (StickGame.possibleNStick g) = Return n ->
  exists g' : StickGame.t,
    StickGame.playNextTurn play g = Return g'
    /\ StickGame.nstick g' = n
    /\ StickGame.isFinished g' = JS.le n (Num 0)
    /\ (forall z : Z, n = Num z -> (StickGame.isFinished g' = true <-> z <= 0))
    /\ StickGame.player g' = negb (StickGame.player g).
Proof.
  intros Hfin Hplay. exists (StickGame.turn g n).
  unfold StickGame.playNextTurn, StickGame.isFinished in *. rewrite Hplay.
  rewrite turn_nstick, turn_finished, turn_player, Hfin, orb_false_r.
  split; [reflexivity | split; [reflexivity | split; [reflexivity | split]]].
  - intros z ->. simpl. apply Z.leb_le.
  - reflexivity.
Qed.

Lemma playNextTurn_pile2_witness :
  exists g' : StickGame.t,
    StickGame.playNextTurn Player.play Examples.pile2 = Return g'
    /\ StickGame.nstick g' = Num 1
    /\ StickGame.isFinished g' = false
    /\ (forall z : Z, Num 1 = Num z -> (StickGame.isFinished g' = true <-> z <= 0))
    /\ StickGame.player g' = true.
Proof.
  exact (playNextTurn_finished_iff_pile_le_0 Examples.pile2 Player.play (Num 1)
           eq_refl eq_refl).
Defined.

(** ** Bookkeeping over a whole game *)

Lemma turnFinished_mover (over : bool) (prev n act : value) (p : Player.t) :
  Player.turnFinished true over prev n act p
  = {| Player.history :=
         Player.history p
         ++ [ {| action := act; prevState := prev; nextState := NaN;
                 reward := if over then -1 else 0 |} ];
       Player.rewards :=
         if over then Player.rewards p ++ [-1] else Player.rewards p;
       Player.winCount := Player.winCount p;
       Player.loseCount :=
         if over then (Player.loseCount p + 1)%nat else Player.loseCount p |}.
Proof.
  unfold Player.turnFinished. destruct over.
  - rewrite update_last_snoc. reflexivity.
  - reflexivity.
Qed.

Lemma turnFinished_opponent_empty (over : bool) (prev n act : value)
    (p : Player.t) :
  Player.history p = [] -> Player.turnFinished false over prev n act p = p.
Proof. intros H. unfold Player.turnFinished. rewrite H. reflexivity. Qed.

Lemma turnFinished_opponent_snoc (over : bool) (prev n act : value)
    (p : Player.t) (h : list transition) (tr : transition) :
  Player.history p = h ++ [tr] ->
  Player.turnFinished false over prev n act p
  = {| Player.history :=
         h ++ [ {| action := action tr; prevState := prevState tr;
                   nextState := n;
                   reward := if over then 1 else reward tr |} ];
       Player.rewards :=
         if over then Player.rewards p ++ [1] else Player.rewards p;
       Player.winCount :=
         if over then (Player.winCount p + 1)%nat else Player.winCount p;
       Player.loseCount := Player.loseCount p |}.
Proof.
  intros H. unfold Player.turnFinished. rewrite H.
  replace (0 <? List.length (h ++ [tr]))%nat with true
    by (symmetry; apply Nat.ltb_lt; rewrite length_app; simpl; lia).
  destruct over; rewrite !update_last_snoc; reflexivity.
Qed.

(** After a turn the pointer has flipped: the opponent of the active player
    is the one who has just moved. *)
Lemma turn_getPlayer (g : StickGame.t) (n : value) (opponent : bool) :
  StickGame.getPlayer (StickGame.turn g n) opponent
  = StickGame.getPlayer g (negb opponent).
Proof.
  unfold StickGame.getPlayer. rewrite turn_player.
  destruct (StickGame.player g), opponent; reflexivity.
Qed.

Lemma turn_last_mover (g : StickGame.t) (n : value) :
  StickGame.deref (StickGame.turn g n) (StickGame.getPlayer g false)
  = Player.turnFinished true (JS.le n (Num 0) || StickGame.finished g)
      (StickGame.nstick g) n (JS.sub (StickGame.nstick g) n)
      (StickGame.deref g (StickGame.getPlayer g false)).
Proof.
  unfold StickGame.turn, StickGame.getPlayer.
  destruct (StickGame.player g), (JS.le n (Num 0)) eqn:E; simpl; rewrite ?E;
    reflexivity.
Qed.

Lemma turn_next_mover (g : StickGame.t) (n : value) :
  StickGame.deref (StickGame.turn g n) (StickGame.getPlayer g true)
  = Player.turnFinished false (JS.le n (Num 0) || StickGame.finished g)
      (StickGame.nstick g) n (JS.sub (StickGame.nstick g) n)
      (StickGame.deref g (StickGame.getPlayer g true)).
Proof.
  unfold StickGame.turn, StickGame.getPlayer.
  destruct (StickGame.player g), (JS.le n (Num 0)) eqn:E; simpl; rewrite ?E;
    reflexivity.
Qed.

Lemma getPlayer_cases (g : StickGame.t) (r : ref) :
  r = StickGame.getPlayer g false \/ r = StickGame.getPlayer g true.
Proof.
  unfold StickGame.getPlayer. destruct (StickGame.player g), r; simpl; auto.
Qed.

Lemma getPlayer_distinct (g : StickGame.t) :
  StickGame.getPlayer g true <> StickGame.getPlayer g false.
Proof.
  unfold StickGame.getPlayer. destruct (StickGame.player g); simpl; discriminate.
Qed.

Lemma playTurns_finished (rets : list value) (g : StickGame.t) :
  StickGame.finished g = true -> StickGame.playTurns rets g = g.
Proof.
  intros H. destruct rets; simpl; [reflexivity |].
  unfold StickGame.isFinished. rewrite H. reflexivity.
Qed.

Section Bookkeeping.

Variable P : value -> Prop.
Variable g0 : StickGame.t.

Lemma restart_in_progress (startPlayer : Z) :
  Inv.in_progress P g0 (StickGame.restart startPlayer g0) false.
Proof.
  unfold Inv.in_progress, StickGame.restart, StickGame.getPlayer. simpl.
  split; [reflexivity | split; [| split]].
  - intros []; repeat split.
  - destruct (negb (startPlayer =? 0)); simpl; constructor.
  - destruct (negb (startPlayer =? 0)); simpl; split; reflexivity.
Qed.

(** A turn that does not end the game. *)
Lemma turn_in_progress (g : StickGame.t) (moved : bool) (n : value) :
  Inv.in_progress P g0 g moved -> P n -> JS.le n (Num 0) = false ->
  Inv.in_progress P g0 (StickGame.turn g n) true.
Proof.
  intros (Hfin & Hstats & Hact & Hopp) Hn Hle.
  assert (Hmover := turn_last_mover g n).
  assert (Hnext := turn_next_mover g n).
  rewrite Hle, Hfin, turnFinished_mover in Hmover.
  rewrite Hle, Hfin in Hnext. cbn [orb] in Hmover, Hnext.
  unfold Inv.in_progress.
  rewrite turn_finished, !turn_getPlayer, Hle, Hfin. cbn [negb orb].
  rewrite Hmover, Hnext.
  split; [reflexivity | split; [| split]].
  - intros r. destruct (getPlayer_cases g r) as [-> | ->].
    + rewrite Hmover. apply Hstats.
    + rewrite Hnext. destruct moved.
      * destruct Hopp as (h & tr & Hh & _ & _).
        rewrite (turnFinished_opponent_snoc _ _ _ _ _ _ _ Hh).
        apply Hstats.
      * destruct Hopp as [Hh _].
        rewrite (turnFinished_opponent_empty _ _ _ _ _ Hh). apply Hstats.
  - destruct moved.
    + destruct Hopp as (h & tr & Hh & Hsettled & Hnan & Hrew).
      rewrite (turnFinished_opponent_snoc _ _ _ _ _ _ _ Hh). cbn [Player.history].
      apply Forall_app. split; [exact Hsettled |].
      constructor; [| constructor]. split; [exact Hn | exact Hrew].
    + destruct Hopp as [Hh _].
      rewrite (turnFinished_opponent_empty _ _ _ _ _ Hh), Hh.
      constructor.
  - cbn [Player.history]. eexists _, _. split; [reflexivity |].
    split; [exact Hact | split; reflexivity].
Qed.

(** The turn that ends the game. *)
Lemma turn_over (g : StickGame.t) (moved : bool) (n : value) :
  Inv.in_progress P g0 g moved -> P n -> JS.le n (Num 0) = true ->
  Inv.over P g0 (StickGame.turn g n) moved.
Proof.
  intros (Hfin & Hstats & Hact & Hopp) Hn Hle.
  assert (Hmover := turn_last_mover g n).
  assert (Hnext := turn_next_mover g n).
  rewrite Hle, turnFinished_mover in Hmover.
  rewrite Hle in Hnext. cbn [orb] in Hmover, Hnext.
  destruct (Hstats (StickGame.getPlayer g false)) as (Hr & Hw & Hl).
  destruct (Hstats (StickGame.getPlayer g true)) as (Hr' & Hw' & Hl').
  unfold Inv.over.
  rewrite turn_finished, !turn_getPlayer, Hle. cbn [negb orb].
  rewrite Hmover, Hnext.
  split; [reflexivity | split; [| split]].
  - unfold Inv.lost. cbn [Player.rewards Player.winCount Player.loseCount].
    rewrite Hr, Hw, Hl. repeat split.
  - cbn [Player.history]. eexists _, _. split; [reflexivity |].
    split; [exact Hact | split; reflexivity].
  - destruct moved.
    + destruct Hopp as (h & tr & Hh & Hsettled & Hnan & Hrew).
      rewrite (turnFinished_opponent_snoc _ _ _ _ _ _ _ Hh).
      unfold Inv.won. cbn [Player.rewards Player.winCount Player.loseCount Player.history].
      rewrite Hr', Hw', Hl'.
      split; [repeat split |].
      eexists _, _. split; [reflexivity |].
      split; [exact Hsettled | split; [exact Hn | reflexivity]].
    + destruct Hopp as [Hh _].
      rewrite (turnFinished_opponent_empty _ _ _ _ _ Hh).
      split; [apply Hstats | exact Hh].
Qed.

(** The loop: the game is still in progress, or it is over and the flag
    tells whether the winner had moved. *)
Lemma playTurns_invariant (rets : list value) :
  Forall P rets ->
  forall (g : StickGame.t) (moved : bool),
    Inv.in_progress P g0 g moved ->
    if StickGame.finished (StickGame.playTurns rets g)
    then Inv.over P g0 (StickGame.playTurns rets g) (Inv.winner_moved moved rets)
    else exists moved', Inv.in_progress P g0 (StickGame.playTurns rets g) moved'.
Proof.
  induction 1 as [| n rets Hn Hrets IH]; intros g moved Hg.
  - simpl. destruct Hg as [Hfin Hrest]. rewrite Hfin.
    exists moved. split; assumption.
  - pose proof Hg as [Hfin _]. simpl. unfold StickGame.isFinished.
    rewrite Hfin. destruct (JS.le n (Num 0)) eqn:Hle.
    + pose proof (turn_over g moved n Hg Hn Hle) as Hover.
      pose proof Hover as [Hfin' _].
      rewrite (playTurns_finished rets _ Hfin'), Hfin'.
      rewrite orb_false_r. exact Hover.
    + pose proof (turn_in_progress g moved n Hg Hn Hle) as Hnext.
      specialize (IH _ _ Hnext). rewrite orb_true_r.
      destruct (StickGame.finished (StickGame.playTurns rets (StickGame.turn g n)));
        [| exact IH].
      destruct rets; exact IH.
Qed.

End Bookkeeping.

(** C3, as stated: with a pile of one stick the first move ends the game;
    the mover is charged [-1], and the other player, whose history is
    empty, is given no reward and no win. *)
Lemma first_move_win_is_not_rewarded :
  exists g' : StickGame.t,
    StickGame.playNextTurn Player.play Examples.pile1 = Return g'
    /\ g' = StickGame.playTurns [Num 0] Examples.pile1
    /\ StickGame.isFinished g' = true
    /\ Player.rewards (StickGame.player1 g') = [-1]
    /\ Player.loseCount (StickGame.player1 g') = 1%nat
    /\ Player.rewards (StickGame.player2 g') = []
    /\ Player.winCount (StickGame.player2 g') = 0%nat.
Proof.
  eexists. split; [reflexivity |]. repeat split.
Qed.

(** C3, amended: when a game has been played to its end, the player who
    made the last move has [-1] appended to its reward log and its
    [loseCount] incremented, and nothing else; the other player has [+1]
    appended and its [winCount] incremented, and nothing else, provided the
    game was not ended by its very first move; when it was, the other
    player's log and counters are left as they were. *)
Theorem terminal_rewards (g : StickGame.t) (startPlayer : Z)
    (rets : list value) :
  let g' := StickGame.playTurns rets (StickGame.restart startPlayer g) in
  StickGame.isFinished g' = true ->
  let loser := StickGame.getPlayer g' true in
  let winner := StickGame.getPlayer g' false in
  loser <> winner
  /\ Player.rewards (StickGame.deref g' loser)
     = Player.rewards (StickGame.deref g loser) ++ [-1]
  /\ Player.loseCount (StickGame.deref g' loser)
     = (Player.loseCount (StickGame.deref g loser) + 1)%nat
  /\ Player.winCount (StickGame.deref g' loser)
     = Player.winCount (StickGame.deref g loser)
  /\ Player.rewards (StickGame.deref g' winner)
     = (if first_move_ends rets
        then Player.rewards (StickGame.deref g winner)
        else Player.rewards (StickGame.deref g winner) ++ [1])
  /\ Player.winCount (StickGame.deref g' winner)
     = (if first_move_ends rets
        then Player.winCount (StickGame.deref g winner)
        else (Player.winCount (StickGame.deref g winner) + 1)%nat)
  /\ Player.loseCount (StickGame.deref g' winner)
     = Player.loseCount (StickGame.deref g winner).
Proof.
  intros g' Hfin loser winner.
  assert (Hall : Forall (fun _ : value => True) rets)
    by (apply List.Forall_forall; intros; exact I).
  pose proof (playTurns_invariant _ g rets Hall _ _
                (restart_in_progress _ g startPlayer)) as Hinv.
  fold g' in Hinv. unfold StickGame.isFinished in Hfin. rewrite Hfin in Hinv.
  destruct Hinv as (_ & (Hr & Hw & Hl) & _ & Hwin).
  fold loser in Hr, Hw, Hl. fold winner in Hwin.
  split; [apply getPlayer_distinct |].
  split; [exact Hr | split; [exact Hl | split; [exact Hw |]]].
  destruct rets as [| n rets].
  - simpl in g'. subst g'. discriminate Hfin.
  - unfold Inv.winner_moved in Hwin. unfold first_move_ends.
    cbn [orb] in Hwin. destruct (JS.le n (Num 0)); cbn [negb] in Hwin.
    + destruct Hwin as [(Hr' & Hw' & Hl') _]. repeat split; assumption.
    + destruct Hwin as [(Hr' & Hw' & Hl') _]. repeat split; assumption.
Qed.

Lemma terminal_rewards_witness :
  let g := Examples.game3 in
  let rets := [Num 2; Num 1; Num 0] in
  let g' := StickGame.playTurns rets (StickGame.restart 0 g) in
  StickGame.isFinished g' = true
  /\ StickGame.getPlayer g' true = P1
  /\ StickGame.getPlayer g' false = P2
  /\ Player.rewards (StickGame.player1 g') = [-1]
  /\ Player.rewards (StickGame.player2 g') = [1]
  /\ (let loser := StickGame.getPlayer g' true in
      let winner := StickGame.getPlayer g' false in
      loser <> winner
      /\ Player.rewards (StickGame.deref g' loser)
         = Player.rewards (StickGame.deref g loser) ++ [-1]
      /\ Player.loseCount (StickGame.deref g' loser)
         = (Player.loseCount (StickGame.deref g loser) + 1)%nat
      /\ Player.winCount (StickGame.deref g' loser)
         = Player.winCount (StickGame.deref g loser)
      /\ Player.rewards (StickGame.deref g' winner)
         = (if first_move_ends rets
            then Player.rewards (StickGame.deref g winner)
            else Player.rewards (StickGame.deref g winner) ++ [1])
      /\ Player.winCount (StickGame.deref g' winner)
         = (if first_move_ends rets
            then Player.winCount (StickGame.deref g winner)
            else (Player.winCount (StickGame.deref g winner) + 1)%nat)
      /\ Player.loseCount (StickGame.deref g' winner)
         = Player.loseCount (StickGame.deref g winner)).
Proof.
  split; [reflexivity |].
  split; [reflexivity | split; [reflexivity |]].
  split; [reflexivity | split; [reflexivity |]].
  exact (terminal_rewards Examples.game3 0 [Num 2; Num 1; Num 0] eq_refl).
Defined.

(** C6. Over a game in which [play] returns numbers, every record has a
    reward among [-1], 0 and 1, and the records that the opponent's
    notification has reached (all those of the player who did not move last,
    and all but the newest of the player who did) hold a number as
    [nextState]; the newest record of the last mover is the only one that
    keeps the placeholder.  Once the game is over that record carries the
    reward [-1], so no record handed to [train] has the placeholder together
    with the reward 0. *)
Theorem finalized_records (g : StickGame.t) (startPlayer : Z)
    (rets : list value) :
  Forall (fun n => is_number n = true) rets ->
  let g' := StickGame.playTurns rets (StickGame.restart startPlayer g) in
  (forall r tr, In tr (Player.history (StickGame.deref g' r)) ->
     reward tr = -1 \/ reward tr = 0 \/ reward tr = 1)
  /\ (forall tr,
        In tr (Player.history
                 (StickGame.deref g' (StickGame.getPlayer g' false))) ->
        is_number (nextState tr) = true)
  /\ (forall h tr,
        Player.history (StickGame.deref g' (StickGame.getPlayer g' true))
        = h ++ [tr] ->
        forall tr', In tr' h -> is_number (nextState tr') = true)
  /\ (StickGame.isFinished g' = true ->
      forall r tr, In tr (Player.history (StickGame.deref g' r)) ->
        ~ (nextState tr = NaN /\ reward tr = 0)).
Proof.
  intros Hnum g'.
  pose proof (playTurns_invariant _ g rets Hnum _ _
                (restart_in_progress _ g startPlayer)) as Hinv.
  fold g' in Hinv. unfold StickGame.isFinished.
  set (P := fun n => is_number n = true) in *.
  assert (Hset : forall h tr, Forall (Inv.settled P) h -> In tr h ->
                   is_number (nextState tr) = true /\ reward tr = 0).
  { intros h tr Hh Hin. rewrite List.Forall_forall in Hh. exact (Hh _ Hin). }
  destruct (StickGame.finished g') eqn:Hfin.
  - destruct Hinv as (_ & _ & (hl & trl & Hl & Hhl & Hnan & Hrew) & Hwin).
    assert (Hwinner : forall tr,
               In tr (Player.history
                        (StickGame.deref g' (StickGame.getPlayer g' false))) ->
               is_number (nextState tr) = true
               /\ (reward tr = 0 \/ reward tr = 1)).
    { intros tr Hin. destruct (Inv.winner_moved false rets).
      - destruct Hwin as (_ & hw & trw & Hw & Hhw & Hnw & Hrw).
        rewrite Hw in Hin. apply in_app_or in Hin as [Hin | [<- | []]].
        + destruct (Hset _ _ Hhw Hin). auto.
        + auto.
      - destruct Hwin as [_ Hw]. rewrite Hw in Hin. destruct Hin. }
    assert (Hloser : forall tr,
               In tr (Player.history
                        (StickGame.deref g' (StickGame.getPlayer g' true))) ->
               (is_number (nextState tr) = true /\ reward tr = 0)
               \/ (nextState tr = NaN /\ reward tr = -1)).
    { intros tr Hin. rewrite Hl in Hin.
      apply in_app_or in Hin as [Hin | [<- | []]].
      - left. exact (Hset _ _ Hhl Hin).
      - right. split; assumption. }
    split; [| split; [| split]].
    + intros r tr Hin. destruct (getPlayer_cases g' r) as [-> | ->].
      * destruct (Hwinner _ Hin) as [_ [? | ?]]; auto.
      * destruct (Hloser _ Hin) as [[_ ?] | [_ ?]]; auto.
    + intros tr Hin. exact (proj1 (Hwinner _ Hin)).
    + intros h tr Hh tr' Hin. rewrite Hl in Hh.
      apply app_inj_tail in Hh as [<- _]. exact (proj1 (Hset _ _ Hhl Hin)).
    + intros _ r tr Hin [Hn Hr].
      destruct (getPlayer_cases g' r) as [-> | ->].
      * destruct (Hwinner _ Hin) as [Hnum' _]. rewrite Hn in Hnum'.
        discriminate Hnum'.
      * destruct (Hloser _ Hin) as [[Hnum' _] | [_ Hr']].
        -- rewrite Hn in Hnum'. discriminate Hnum'.
        -- rewrite Hr in Hr'. discriminate Hr'.
  - destruct Hinv as (moved & _ & _ & Hact & Hopp).
    split; [| split; [| split]].
    + intros r tr Hin. destruct (getPlayer_cases g' r) as [-> | ->].
      * destruct (Hset _ _ Hact Hin). auto.
      * destruct moved.
        -- destruct Hopp as (h & tr0 & Hh & Hsettled & Hnan & Hrew).
           rewrite Hh in Hin. apply in_app_or in Hin as [Hin | [<- | []]].
           ++ destruct (Hset _ _ Hsettled Hin). auto.
           ++ auto.
        -- destruct Hopp as [Hh _]. rewrite Hh in Hin. destruct Hin.
    + intros tr Hin. exact (proj1 (Hset _ _ Hact Hin)).
    + intros h tr Hh tr' Hin. destruct moved.
      * destruct Hopp as (h0 & tr0 & Hh0 & Hsettled & _).
        rewrite Hh0 in Hh. apply app_inj_tail in Hh as [<- _].
        exact (proj1 (Hset _ _ Hsettled Hin)).
      * destruct Hopp as [Hh0 _]. rewrite Hh0 in Hh.
        destruct h; discriminate Hh.
    + intros Habs. discriminate Habs.
Qed.

Lemma finalized_records_witness :
  let rets := [Num 2; Num 1; Num 0] in
  let g' := StickGame.playTurns rets (StickGame.restart 0 Examples.game3) in
  Forall (fun n => is_number n = true) rets
  /\ StickGame.isFinished g' = true
  /\ Player.history (StickGame.player1 g')
     = [ {| action := Num 1; prevState := Num 3; nextState := Num 1; reward := 0 |};
         {| action := Num 1; prevState := Num 1; nextState := NaN; reward := -1 |} ]
  /\ Player.history (StickGame.player2 g')
     = [ {| action := Num 1; prevState := Num 2; nextState := Num 0; reward := 1 |} ]
  /\ (forall r tr, In tr (Player.history (StickGame.deref g' r)) ->
        ~ (nextState tr = NaN /\ reward tr = 0)).
Proof.
  assert (Hnum : Forall (fun n => is_number n = true) [Num 2; Num 1; Num 0])
    by (repeat constructor).
  split; [exact Hnum |].
  split; [reflexivity | split; [reflexivity | split; [reflexivity |]]].
  exact (proj2 (proj2 (proj2
           (finalized_records Examples.game3 0 [Num 2; Num 1; Num 0] Hnum)))
           eq_refl).
Defined.

(** ** The human player's prompt *)

(** The index is accepted exactly when it is a number between 1 and the
    number of successors. *)
Lemma accepted_spec (action : value) (possible : list value) :
  HumanPlayer.accepted action possible = true
  <-> exists z : Z, action = Num z /\ 1 <= z <= Z.of_nat (List.length possible).
Proof.
  unfold HumanPlayer.accepted, JS.gt, JS.length. split.
  - destruct action as [z | |]; simpl; try discriminate.
    intros H. apply andb_prop in H as [H1 H2].
    apply Z.ltb_lt in H1. apply Z.leb_le in H2. exists z. split; [reflexivity | lia].
  - intros (z & -> & H1 & H2). simpl.
    apply andb_true_intro. split; [apply Z.ltb_lt | apply Z.leb_le]; lia.
Qed.

(** An accepted index designates one of the successors. *)
Lemma accepted_index (action : value) (possible : list value) :
  HumanPlayer.accepted action possible = true ->
  exists z : Z,
    action = Num z /\ 1 <= z <= Z.of_nat (List.length possible)
    /\ possible !! Z.to_nat (z - 1)
       = Some (JS.index possible (JS.sub action (Num 1))).
Proof.
  intros H. apply accepted_spec in H as (z & -> & H1 & H2).
  exists z. split; [reflexivity | split; [lia |]].
  simpl. replace (0 <=? z - 1) with true by (symmetry; apply Z.leb_le; lia).
  assert (Hlt : (Z.to_nat (z - 1) < List.length possible)%nat) by lia.
  revert Hlt. generalize (Z.to_nat (z - 1)). clear.
  induction possible as [| v possible IH]; intros [| i] Hlt; simpl in *;
    try lia; [reflexivity |].
  apply IH. lia.
Qed.

Lemma play_loop_turned_down (possible : list value) (bad keys written : list string) :
  Forall (fun s => HumanPlayer.accepted (JS.parseInt s) possible = false) bad ->
  HumanPlayerTerm.play_loop possible (bad ++ keys) written
  = HumanPlayerTerm.play_loop possible keys
      (HumanPlayerTerm.turned_down bad written).
Proof.
  intros Hbad. revert written.
  induction Hbad as [| s bad Hs Hbad IH]; intros written.
  - reflexivity.
  - simpl. rewrite Hs. apply IH.
Qed.

Lemma play_loop_never_throws (possible : list value) (keys written : list string)
    (e : error) :
  fst (HumanPlayerTerm.play_loop possible keys written) <> Throw e.
Proof.
  revert written. induction keys as [| s keys IH]; intros written; simpl.
  - discriminate.
  - destruct (HumanPlayer.accepted (JS.parseInt s) possible); simpl.
    + discriminate.
    + apply IH.
Qed.

(** C4, as stated: in the readline build an index that is out of range or
    not a number makes [play] throw to its caller. *)
Lemma readline_play_throws_on_bad_index :
  HumanPlayer.play "9" (Num 3) [Num 2; Num 1; Num 0]
  = Throw (Error "Bad action: 9")
  /\ HumanPlayer.play "x" (Num 3) [Num 2; Num 1; Num 0]
     = Throw (Error "Bad action: NaN")
  /\ StickGame.playNextTurn (HumanPlayer.play "9") Examples.game3
     = Throw (Error "Bad action: 9").
Proof. repeat split. Qed.

(** C4, amended: an index is accepted exactly when it is a number between 1
    and the number of successors.  In the terminal build [play] turns down
    every other input with a message and prompts again, never throws,
    returns at the first accepted input the successor at that index, and
    stays suspended while no accepted input has come.  In the readline build
    [play] reads one input, returns the successor at an accepted index and
    throws [Error("Bad action: ...")] to its caller otherwise. *)
Theorem human_play_reprompts (state : value) (possible : list value)
    (bad : list string) (good : string) (rest written : list string) :
  Forall (fun s => HumanPlayer.accepted (JS.parseInt s) possible = false) bad ->
  HumanPlayer.accepted (JS.parseInt good) possible = true ->
  let chosen := JS.index possible (JS.sub (JS.parseInt good) (Num 1)) in
  let screen := Term.prompt (HumanPlayerTerm.turned_down bad written) in
  (forall action,
      HumanPlayer.accepted action possible = true
      <-> exists z : Z, action = Num z /\ 1 <= z <= Z.of_nat (List.length possible))
  /\ HumanPlayerTerm.play
       {| Term.keys := bad ++ good :: rest; Term.written := written |}
       state possible
     = (Return chosen, {| Term.keys := rest; Term.written := screen |})
  /\ HumanPlayerTerm.play
       {| Term.keys := bad; Term.written := written |} state possible
     = (Pending, {| Term.keys := []; Term.written := screen |})
  /\ (exists z : Z,
         JS.parseInt good = Num z /\ 1 <= z <= Z.of_nat (List.length possible)
         /\ possible !! Z.to_nat (z - 1) = Some chosen)
  /\ (forall term e, fst (HumanPlayerTerm.play term state possible) <> Throw e)
  /\ HumanPlayer.play good state possible = Return chosen
  /\ Forall
       (fun s =>
          HumanPlayer.play s state possible
          = Throw (Error ("Bad action: " +:+ JS.to_string (JS.parseInt s))))
       bad.
Proof.
  intros Hbad Hgood chosen screen.
  split; [intros action; apply accepted_spec |].
  split; [| split; [| split; [| split; [| split]]]].
  - unfold HumanPlayerTerm.play. cbn [Term.keys Term.written].
    rewrite (play_loop_turned_down _ _ _ _ Hbad). simpl. rewrite Hgood.
    reflexivity.
  - unfold HumanPlayerTerm.play. cbn [Term.keys Term.written].
    rewrite <- (app_nil_r bad) at 1.
    rewrite (play_loop_turned_down _ _ _ _ Hbad). reflexivity.
  - apply accepted_index. exact Hgood.
  - intros term e. apply play_loop_never_throws.
  - unfold HumanPlayer.play. rewrite Hgood. reflexivity.
  - eapply Forall_impl; [exact Hbad |]. intros s Hs. simpl in Hs.
    unfold HumanPlayer.play. rewrite Hs. reflexivity.
Qed.

Lemma human_play_reprompts_witness :
  let possible := [Num 2; Num 1; Num 0] in
  Forall (fun s => HumanPlayer.accepted (JS.parseInt s) possible = false)
    ["x"; "9"]
  /\ HumanPlayer.accepted (JS.parseInt "3") possible = true
  /\ fst (HumanPlayerTerm.play Examples.typed (Num 3) possible) = Return (Num 0)
  /\ Term.keys (snd (HumanPlayerTerm.play Examples.typed (Num 3) possible)) = ["1"]
  /\ HumanPlayer.play "3" (Num 3) possible = Return (Num 0).
Proof.
  assert (Hbad : Forall
                   (fun s => HumanPlayer.accepted (JS.parseInt s)
                               [Num 2; Num 1; Num 0] = false) ["x"; "9"])
    by (repeat constructor).
  assert (Hgood : HumanPlayer.accepted (JS.parseInt "3") [Num 2; Num 1; Num 0]
                  = true) by reflexivity.
  pose proof (human_play_reprompts (Num 3) [Num 2; Num 1; Num 0] ["x"; "9"] "3"
                ["1"] [] Hbad Hgood) as (_ & Hterm & _ & _ & _ & Hline & _).
  split; [exact Hbad | split; [exact Hgood |]].
  split; [| split].
  - exact (f_equal fst Hterm).
  - exact (f_equal (fun x => Term.keys (snd x)) Hterm).
  - exact Hline.
Defined.

(** ** No allowed action *)

Lemma index_nil (i : value) : JS.index [] i = Undefined.
Proof.
  destruct i as [z | |]; simpl; try reflexivity.
  destruct (0 <=? z); [| reflexivity]. destruct (Z.to_nat z); reflexivity.
Qed.

Lemma accepted_nil (action : value) : HumanPlayer.accepted action [] = false.
Proof.
  destruct (HumanPlayer.accepted action []) eqn:E; [| reflexivity].
  apply accepted_spec in E as (z & _ & H). simpl in H. lia.
Qed.

Lemma play_loop_nil_pending (keys written : list string) :
  fst (HumanPlayerTerm.play_loop [] keys written) = Pending.
Proof.
  revert written. induction keys as [| s keys IH]; intros written; simpl.
  - reflexivity.
  - rewrite accepted_nil. apply IH.
Qed.

(** C7, as stated: with no allowed action a turn of the base player goes
    through, leaving the pile undefined and the game in progress, and the
    greedy step of the learning agent throws a [TypeError]; neither is a
    [ConfigurationError]. *)
Lemma empty_actions_turn_goes_through :
  StickGame.actions Examples.no_action = []
  /\ (exists g' : StickGame.t,
         StickGame.playNextTurn Player.play Examples.no_action = Return g'
         /\ StickGame.nstick g' = Undefined
         /\ StickGame.isFinished g' = false)
  /\ StickGame.playNextTurn
       (PlayerAI.play 0.25%float 0.75%float Examples.won_from_3) Examples.no_action
     = Throw (TypeError "Reduce of empty array with no initial value")
  /\ (forall msg,
        StickGame.playNextTurn Player.play Examples.no_action
        <> Throw (ConfigurationError msg))
  /\ (forall msg,
        StickGame.playNextTurn
          (PlayerAI.play 0.25%float 0.75%float Examples.won_from_3) Examples.no_action
        <> Throw (ConfigurationError msg)).
Proof.
  assert (Hgreedy : StickGame.playNextTurn
                      (PlayerAI.play 0.25%float 0.75%float Examples.won_from_3)
                      Examples.no_action
                    = Throw (TypeError "Reduce of empty array with no initial value"))
    by reflexivity.
  split; [reflexivity | split; [| split; [exact Hgreedy | split]]].
  - eexists. split; [reflexivity |]. split; reflexivity.
  - intros msg. discriminate.
  - intros msg. rewrite Hgreedy. discriminate.
Qed.

(** C7, amended: with no allowed action the engine raises no error of its
    own and offers an empty list of successors; what the turn does is what
    the active player's [play] does with it.  The base player, the random
    player and the learning agent when it explores return [undefined]: the
    turn goes through, the pile becomes [undefined] and the game is no more
    finished than it was.  The greedy step of the learning agent throws the
    [TypeError] of [reduce].  The readline human player throws
    [Error("Bad action: ...")] whatever is typed, and the terminal human
    player prompts for ever. *)
Theorem empty_actions_no_ConfigurationError (g : StickGame.t) :
  StickGame.actions g = [] ->
  StickGame.possibleNStick g = []
  /\ StickGame.playNextTurn Player.play g = Return (StickGame.turn g Undefined)
  /\ (forall r,
        StickGame.playNextTurn (RandomPlayer.play r) g
        = Return (StickGame.turn g Undefined))
  /\ (forall r r' ai,
        StickGame.playNextTurn (PlayerAI.play r r' ai) g
        = if (r <? PlayerAI.eps ai)%float
          then Return (StickGame.turn g Undefined)
          else Throw (TypeError "Reduce of empty array with no initial value"))
  /\ StickGame.nstick (StickGame.turn g Undefined) = Undefined
  /\ StickGame.isFinished (StickGame.turn g Undefined) = StickGame.isFinished g
  /\ (forall userInput,
        StickGame.playNextTurn (HumanPlayer.play userInput) g
        = Throw (Error ("Bad action: " +:+ JS.to_string (JS.parseInt userInput))))
  /\ (forall term,
        StickGame.playNextTurn
          (fun state possible => fst (HumanPlayerTerm.play term state possible)) g
        = Pending).
Proof.
  intros Hactions.
  assert (Hnil : StickGame.possibleNStick g = []).
  { unfold StickGame.possibleNStick. rewrite Hactions. reflexivity. }
  unfold StickGame.playNextTurn. rewrite Hnil.
  split; [reflexivity | split; [reflexivity |]].
  split; [| split; [| split; [| split; [| split]]]].
  - intros r. unfold RandomPlayer.play, randChoice. rewrite index_nil.
    reflexivity.
  - intros r r' ai. unfold PlayerAI.play, randChoice. rewrite index_nil.
    destruct (r <? PlayerAI.eps ai)%float; reflexivity.
  - apply turn_nstick.
  - unfold StickGame.isFinished. rewrite turn_finished. reflexivity.
  - intros userInput. unfold HumanPlayer.play. rewrite accepted_nil.
    reflexivity.
  - intros term. unfold HumanPlayerTerm.play. rewrite play_loop_nil_pending.
    reflexivity.
Qed.

Lemma empty_actions_witness :
  StickGame.actions Examples.no_action = []
  /\ StickGame.possibleNStick Examples.no_action = []
  /\ StickGame.playNextTurn Player.play Examples.no_action
     = Return (StickGame.turn Examples.no_action Undefined)
  /\ StickGame.playNextTurn (HumanPlayer.play "1") Examples.no_action
     = Throw (Error "Bad action: 1").
Proof.
  pose proof (empty_actions_no_ConfigurationError Examples.no_action eq_refl)
    as (H1 & H2 & _ & _ & _ & _ & H3 & _).
  split; [reflexivity | split; [exact H1 | split; [exact H2 |]]].
  exact (H3 "1").
Defined.

(** * Further properties of the program *)

(** ** What [play] returns *)

Lemma index_in_or_undefined (arr : list value) (i : value) :
  In (JS.index arr i) arr \/ JS.index arr i = Undefined.
Proof.
  destruct i as [z | |]; simpl; auto.
  destruct (0 <=? z); auto.
  destruct (nth_in_or_default (Z.to_nat z) arr Undefined); auto.
Qed.

Lemma greedy_fold_in (vals : gmap value float) (rest : list value)
    (first : value) :
  In
    (fold_left
       (fun min current =>
          if JS.lt_read (vals !! current) (vals !! min) then current else min)
       rest first)
    (first :: rest).
Proof.
  revert first. induction rest as [| s rest IH]; intros first; simpl.
  - auto.
  - destruct (JS.lt_read (vals !! s) (vals !! first)).
    + right. apply IH.
    + destruct (IH first) as [H | H]; auto.
Qed.

Lemma human_accepted_in (action : value) (possible : list value) :
  HumanPlayer.accepted action possible = true ->
  In (JS.index possible (JS.sub action (Num 1))) possible.
Proof.
  intros H. apply accepted_index in H as (z & _ & _ & H).
  apply list_elem_of_In. eapply list_elem_of_lookup_2. exact H.
Qed.

Lemma play_loop_returns_in (possible : list value) (keys written : list string)
    (v : value) :
  fst (HumanPlayerTerm.play_loop possible keys written) = Return v ->
  In v possible.
Proof.
  revert written. induction keys as [| s keys IH]; intros written; simpl.
  - discriminate.
  - destruct (HumanPlayer.accepted (JS.parseInt s) possible) eqn:E; simpl.
    + intros H. injection H as <-. apply human_accepted_in. exact E.
    + apply IH.
Qed.

(** X1. Whatever the variant, a call of [play] that returns gives back one
    of the offered successors or [undefined]: the base player the first one
    ([undefined] on an empty list), the random player and the learning agent
    an element or [undefined], the human player (in both builds) always an
    element. *)
Theorem play_returns_offered_or_undefined (state : value)
    (possible : list value) :
  Player.play state possible = Return (hd Undefined possible)
  /\ (forall r, exists v,
         RandomPlayer.play r state possible = Return v
         /\ (In v possible \/ v = Undefined))
  /\ (forall r r' ai v,
         PlayerAI.play r r' ai state possible = Return v ->
         In v possible \/ v = Undefined)
  /\ (forall userInput v,
         HumanPlayer.play userInput state possible = Return v -> In v possible)
  /\ (forall term v,
         fst (HumanPlayerTerm.play term state possible) = Return v ->
         In v possible).
Proof.
  split; [| split; [| split; [| split]]].
  - unfold Player.play. destruct possible; reflexivity.
  - intros r. eexists. split; [reflexivity |]. apply index_in_or_undefined.
  - intros r r' ai v. unfold PlayerAI.play.
    destruct (r <? PlayerAI.eps ai)%float.
    + intros H. injection H as <-. apply index_in_or_undefined.
    + unfold PlayerAI.greedyStep. destruct possible as [| first rest].
      * discriminate.
      * intros H. injection H as <-. left. apply greedy_fold_in.
  - intros userInput v. unfold HumanPlayer.play.
    destruct (HumanPlayer.accepted (JS.parseInt userInput) possible) eqn:E.
    + intros H. injection H as <-. apply human_accepted_in. exact E.
    + discriminate.
  - intros term v. apply play_loop_returns_in.
Qed.

(** ** The order of the stored numbers *)

Lemma SFltb_trans (a b c : spec_float) :
  SFltb a b = true -> SFltb b c = true -> SFltb a c = true.
Proof.
  unfold SFltb, SFcompare.
  destruct a as [[] | [] | | [] ma ea], b as [[] | [] | | [] mb eb],
    c as [[] | [] | | [] mc ec]; try discriminate; try reflexivity;
    change (Pos.compare_cont Eq) with Pos.compare;
    destruct (Z.compare_spec ea eb), (Z.compare_spec eb ec),
      (Z.compare_spec ea ec);
    try discriminate; try reflexivity; try lia;
    destruct (Pos.compare_spec ma mb), (Pos.compare_spec mb mc),
      (Pos.compare_spec ma mc);
    simpl; try discriminate; try reflexivity; try lia.
Qed.

Lemma SFleb_of_not_ltb (a b : spec_float) :
  a <> S754_nan -> b <> S754_nan -> SFltb a b = false -> SFleb b a = true.
Proof.
  unfold SFltb, SFleb, SFcompare. intros Ha Hb.
  destruct a as [[] | [] | | [] ma ea], b as [[] | [] | | [] mb eb];
    try congruence; try reflexivity;
    change (Pos.compare_cont Eq) with Pos.compare;
    destruct (Z.compare_spec ea eb), (Z.compare_spec eb ea);
    try discriminate; try reflexivity; try lia;
    destruct (Pos.compare_spec ma mb), (Pos.compare_spec mb ma);
    simpl; try discriminate; try reflexivity; try lia.
Qed.

Lemma SFltb_leb_trans (a b c : spec_float) :
  SFltb a b = true -> SFleb b c = true -> SFltb a c = true.
Proof.
  unfold SFltb, SFleb, SFcompare.
  destruct a as [[] | [] | | [] ma ea], b as [[] | [] | | [] mb eb],
    c as [[] | [] | | [] mc ec]; try discriminate; try reflexivity;
    change (Pos.compare_cont Eq) with Pos.compare;
    destruct (Z.compare_spec ea eb), (Z.compare_spec eb ec),
      (Z.compare_spec ea ec);
    try discriminate; try reflexivity; try lia;
    destruct (Pos.compare_spec ma mb), (Pos.compare_spec mb mc),
      (Pos.compare_spec ma mc);
    simpl; try discriminate; try reflexivity; try lia.
Qed.

Lemma SFltb_leb (a b : spec_float) : SFltb a b = true -> SFleb a b = true.
Proof.
  unfold SFltb, SFleb. destruct (SFcompare a b) as [[] |]; auto.
Qed.

Lemma Prim2SF_not_nan (x : float) : is_nan x = false -> Prim2SF x <> S754_nan.
Proof.
  intros H. unfold Prim2SF. rewrite H.
  destruct (is_zero x); [discriminate |].
  destruct (is_infinity x); [discriminate |].
  destruct (Z.frexp x) as [r e].
  destruct (shr_fexp prec emax _ _ _) as [shr e'].
  destruct (shr_m shr); discriminate.
Qed.

Lemma ltb_trans (x y z : float) :
  (x <? y)%float = true -> (y <? z)%float = true -> (x <? z)%float = true.
Proof. rewrite !ltb_spec. apply SFltb_trans. Qed.

Lemma ltb_leb_trans (x y z : float) :
  (x <? y)%float = true -> (y <=? z)%float = true -> (x <? z)%float = true.
Proof. rewrite !ltb_spec, leb_spec. apply SFltb_leb_trans. Qed.

Lemma leb_of_not_ltb (x y : float) :
  is_nan x = false -> is_nan y = false ->
  (x <? y)%float = false -> (y <=? x)%float = true.
Proof.
  intros Hx Hy. rewrite ltb_spec, leb_spec.
  apply SFleb_of_not_ltb; apply Prim2SF_not_nan; assumption.
Qed.

Lemma ltb_leb (x y : float) : (x <? y)%float = true -> (x <=? y)%float = true.
Proof. rewrite ltb_spec, leb_spec. apply SFltb_leb. Qed.

Lemma lt_read_trans (a b c : option float) :
  JS.lt_read a b = true -> JS.lt_read b c = true -> JS.lt_read a c = true.
Proof.
  destruct a, b, c; simpl; try discriminate. apply ltb_trans.
Qed.

Lemma SFltb_irrefl (a : spec_float) : SFltb a a = false.
Proof.
  unfold SFltb, SFcompare.
  destruct a as [[] | [] | | [] m e]; try reflexivity;
    change (Pos.compare_cont Eq) with Pos.compare;
    rewrite Z.compare_refl, Pos.compare_refl; reflexivity.
Qed.

Lemma lt_read_irrefl (a : option float) : JS.lt_read a a = false.
Proof.
  destruct a as [x |]; simpl; [| reflexivity].
  rewrite ltb_spec. apply SFltb_irrefl.
Qed.

(** ** The greedy choice *)

Section Greedy.

Variable vals : gmap value float.

Let step (min current : value) : value :=
  if JS.lt_read (vals !! current) (vals !! min) then current else min.

(** No state met so far reads strictly below the accumulator. *)
Lemma greedy_fold_minimal (rest seen : list value) (m : value) :
  (forall s, In s seen -> JS.lt_read (vals !! s) (vals !! m) = false) ->
  forall s, In s (seen ++ rest) ->
    JS.lt_read (vals !! s) (vals !! fold_left step rest m) = false.
Proof.
  revert seen m. induction rest as [| c rest IH]; intros seen m Hseen s Hs.
  - rewrite app_nil_r in Hs. apply Hseen. exact Hs.
  - simpl. unfold step at 2.
    assert (Hs' : In s ((seen ++ [c]) ++ rest))
      by (rewrite <- app_assoc; exact Hs).
    destruct (JS.lt_read (vals !! c) (vals !! m)) eqn:Hc.
    + apply (IH (seen ++ [c]) c); [| exact Hs'].
      intros t Ht. apply in_app_or in Ht as [Ht | [<- | []]].
      * destruct (JS.lt_read (vals !! t) (vals !! c)) eqn:Htc; [| reflexivity].
        rewrite <- (Hseen t Ht). symmetry.
        exact (lt_read_trans _ _ _ Htc Hc).
      * apply lt_read_irrefl.
    + apply (IH (seen ++ [c]) m); [| exact Hs'].
      intros t Ht. apply in_app_or in Ht as [Ht | [<- | []]].
      * apply Hseen. exact Ht.
      * exact Hc.
Qed.

(** The accumulator only moves to a state that reads strictly below it. *)
Lemma greedy_fold_below (rest : list value) (m : value) :
  fold_left step rest m = m
  \/ JS.lt_read (vals !! fold_left step rest m) (vals !! m) = true.
Proof.
  revert m. induction rest as [| c rest IH]; intros m; simpl.
  - left. reflexivity.
  - unfold step at 2 4.
    destruct (JS.lt_read (vals !! c) (vals !! m)) eqn:Hc.
    + right. destruct (IH c) as [-> | H]; [exact Hc |].
      exact (lt_read_trans _ _ _ H Hc).
    + apply IH.
Qed.

Lemma lt_read_lookup (a b : value) :
  all_numbers vals [a; b] ->
  JS.lt_read (vals !! a) (vals !! b)
  = (Spec.lookup vals a <? Spec.lookup vals b)%float.
Proof.
  intros H. inversion H as [| ? ? (x & Hx & _) H']; subst.
  inversion H' as [| ? ? (y & Hy & _) _]; subst.
  unfold Spec.lookup. rewrite Hx, Hy. reflexivity.
Qed.

Lemma lookup_not_nan (a : value) :
  all_numbers vals [a] -> is_nan (Spec.lookup vals a) = false.
Proof.
  intros H. inversion H as [| ? ? (x & Hx & Hn) _]; subst.
  unfold Spec.lookup. rewrite Hx. exact Hn.
Qed.

(** With every state in the table: the states before the accumulator read
    strictly above it, the states met since read at least as much. *)
Lemma greedy_fold_first_minimum (rest pre mid : list value) (m : value) :
  all_numbers vals (pre ++ m :: mid ++ rest) ->
  (forall s, In s pre ->
     (Spec.lookup vals m <? Spec.lookup vals s)%float = true) ->
  (forall s, In s mid ->
     (Spec.lookup vals m <=? Spec.lookup vals s)%float = true) ->
  exists pre' post',
    pre ++ m :: mid ++ rest = pre' ++ fold_left step rest m :: post'
    /\ (forall s, In s pre' ->
          (Spec.lookup vals (fold_left step rest m) <? Spec.lookup vals s)%float
          = true)
    /\ (forall s, In s post' ->
          (Spec.lookup vals (fold_left step rest m) <=? Spec.lookup vals s)%float
          = true).
Proof.
  revert pre mid m. induction rest as [| c rest IH]; intros pre mid m Hall Hpre Hmid.
  - simpl. exists pre, mid. rewrite app_nil_r. auto.
  - simpl. unfold step at 2 4 6.
    unfold all_numbers in Hall. rewrite Forall_app in Hall.
    destruct Hall as [Hapre Hall]. inversion Hall as [| ? ? Hm Hall']; subst.
    rewrite Forall_app in Hall'. destruct Hall' as [Hamid Hall'].
    inversion Hall' as [| ? ? Hc Harest]; subst.
    assert (Hcm : all_numbers vals [c; m]) by (repeat constructor; assumption).
    rewrite (lt_read_lookup c m Hcm).
    destruct (Spec.lookup vals c <? Spec.lookup vals m)%float eqn:Hlt.
    + destruct (IH (pre ++ m :: mid) [] c) as (pre' & post' & Heq & H1 & H2).
      * unfold all_numbers. rewrite Forall_app. split.
        -- rewrite Forall_app. split; [exact Hapre |].
           constructor; assumption.
        -- constructor; assumption.
      * intros s Hs. apply in_app_or in Hs as [Hs | [<- | Hs]].
        -- exact (ltb_trans _ _ _ Hlt (Hpre s Hs)).
        -- exact Hlt.
        -- exact (ltb_leb_trans _ _ _ Hlt (Hmid s Hs)).
      * intros s [].
      * exists pre', post'. split; [| split; assumption].
        rewrite <- Heq. rewrite <- !app_assoc. reflexivity.
    + destruct (IH pre (mid ++ [c]) m) as (pre' & post' & Heq & H1 & H2).
      * unfold all_numbers. rewrite Forall_app. split; [exact Hapre |].
        constructor; [exact Hm |]. rewrite <- app_assoc. rewrite Forall_app.
        split; [exact Hamid | constructor; assumption].
      * exact Hpre.
      * intros s Hs. apply in_app_or in Hs as [Hs | [<- | []]].
        -- apply Hmid. exact Hs.
        -- apply leb_of_not_ltb; [| | exact Hlt].
           ++ apply lookup_not_nan. repeat constructor. exact Hc.
           ++ apply lookup_not_nan. repeat constructor. exact Hm.
      * exists pre', post'. split; [| split; assumption].
        rewrite <- Heq. rewrite <- !app_assoc. reflexivity.
Qed.

End Greedy.

(** X2. Over a non-empty list the greedy step returns one of the offered
    states; no offered state reads strictly below it in the table, where a
    read of an unseen state compares false with everything; and it is the
    first offered state unless it reads strictly below the first. *)
Theorem greedyStep_minimal_for_reads (ai : PlayerAI.t) (state first : value)
    (rest : list value) :
  exists chosen,
    PlayerAI.greedyStep ai state (first :: rest) = Return chosen
    /\ In chosen (first :: rest)
    /\ (forall s, In s (first :: rest) ->
          JS.lt_read (read ai s) (read ai chosen) = false)
    /\ (chosen = first
        \/ JS.lt_read (read ai chosen) (read ai first) = true).
Proof.
  eexists. split; [reflexivity |]. unfold read.
  split; [apply greedy_fold_in | split].
  - intros s Hs.
    apply (greedy_fold_minimal (PlayerAI.values ai) rest [first] first).
    + intros t [<- | []]. apply lt_read_irrefl.
    + exact Hs.
  - apply greedy_fold_below.
Qed.

(** X3. When every offered state is in the table with a number, the greedy
    step returns the first state of minimum value: the states offered
    before it have a strictly greater value, those offered after it a value
    at least as great. *)
Theorem greedyStep_first_minimum (ai : PlayerAI.t) (state first : value)
    (rest : list value) :
  Forall
    (fun s => exists x, PlayerAI.values ai !! s = Some x /\ is_nan x = false)
    (first :: rest) ->
  exists chosen pre post,
    PlayerAI.greedyStep ai state (first :: rest) = Return chosen
    /\ first :: rest = pre ++ chosen :: post
    /\ (forall s, In s pre ->
          (Spec.lookup (PlayerAI.values ai) chosen
           <? Spec.lookup (PlayerAI.values ai) s)%float = true)
    /\ (forall s, In s post ->
          (Spec.lookup (PlayerAI.values ai) chosen
           <=? Spec.lookup (PlayerAI.values ai) s)%float = true).
Proof.
  intros Hall.
  destruct (greedy_fold_first_minimum (PlayerAI.values ai) rest [] [] first)
    as (pre & post & Heq & Hpre & Hpost).
  - exact Hall.
  - intros s [].
  - intros s [].
  - eexists _, pre, post. split; [reflexivity |].
    split; [exact Heq | split; assumption].
Qed.

Lemma greedyStep_first_minimum_witness :
  Forall
    (fun s => exists x, PlayerAI.values ranked !! s = Some x /\ is_nan x = false)
    [Num 3; Num 2; Num 1]
  /\ PlayerAI.greedyStep ranked (Num 4) [Num 3; Num 2; Num 1] = Return (Num 2)
  /\ exists chosen pre post,
      PlayerAI.greedyStep ranked (Num 4) [Num 3; Num 2; Num 1] = Return chosen
      /\ [Num 3; Num 2; Num 1] = pre ++ chosen :: post
      /\ (forall s, In s pre ->
            (Spec.lookup (PlayerAI.values ranked) chosen
             <? Spec.lookup (PlayerAI.values ranked) s)%float = true)
      /\ (forall s, In s post ->
            (Spec.lookup (PlayerAI.values ranked) chosen
             <=? Spec.lookup (PlayerAI.values ranked) s)%float = true).
Proof.
  assert (Hall : Forall
                   (fun s => exists x,
                        PlayerAI.values ranked !! s = Some x /\ is_nan x = false)
                   [Num 3; Num 2; Num 1]).
  { repeat constructor; eexists; split; reflexivity. }
  split; [exact Hall | split; [reflexivity |]].
  exact (greedyStep_first_minimum ranked (Num 4) (Num 3) [Num 2; Num 1] Hall).
Defined.

(** ** What [train] touches *)

Lemma train_body_dom (lr : float) (vals : gmap value float) (rec : transition) :
  dom (PlayerAI.train_body lr vals rec) = {[ prevState rec ]} ∪ dom vals.
Proof. unfold PlayerAI.train_body. apply dom_insert_L. Qed.

Lemma train_loop_dom (lr : float) (records : list transition)
    (vals : gmap value float) :
  dom (PlayerAI.train_loop lr records vals)
  = dom vals ∪ list_to_set (map prevState records).
Proof.
  revert vals. induction records as [| rec records IH]; intros vals; simpl.
  - rewrite (right_id_L ∅ (∪)). reflexivity.
  - rewrite IH, train_body_dom.
    rewrite (comm_L (∪) {[ prevState rec ]} (dom vals)), <- (assoc_L (∪)).
    reflexivity.
Qed.

Lemma prevStates_rev (records : list transition) :
  list_to_set (map prevState (rev records))
  = (list_to_set (map prevState records) : gset value).
Proof.
  induction records as [| rec records IH]; simpl; [reflexivity |].
  rewrite map_app, list_to_set_app_L, IH. simpl.
  rewrite (right_id_L ∅ (∪)). apply (comm_L (∪)).
Qed.

Lemma train_loop_frame (lr : float) (records : list transition)
    (vals : gmap value float) (key : value) :
  ~ In key (map prevState records) ->
  PlayerAI.train_loop lr records vals !! key = vals !! key.
Proof.
  revert vals. induction records as [| rec records IH]; intros vals Hkey; simpl.
  - reflexivity.
  - simpl in Hkey. rewrite IH by tauto.
    unfold PlayerAI.train_body. apply lookup_insert_ne. tauto.
Qed.

(** X4. [train] never removes an entry of the table: the keys after the
    pass are the keys before it together with the states the agent moved
    from in the episode, and the entry of any other state is left as it
    was. *)
Theorem train_touches_only_prevStates (ai : PlayerAI.t) :
  dom (PlayerAI.values (PlayerAI.train ai))
  = dom (PlayerAI.values ai)
    ∪ list_to_set (map prevState (Player.history (PlayerAI.super ai)))
  /\ (forall key,
        In key (map prevState (Player.history (PlayerAI.super ai)))
        \/ PlayerAI.values (PlayerAI.train ai) !! key
           = PlayerAI.values ai !! key).
Proof.
  unfold PlayerAI.train. simpl. split.
  - rewrite train_loop_dom, prevStates_rev. reflexivity.
  - intros key.
    destruct (in_dec value_eq_dec key
                (map prevState (Player.history (PlayerAI.super ai))))
      as [Hin | Hout]; [left; exact Hin | right].
    apply train_loop_frame. rewrite map_rev, <- in_rev. exact Hout.
Qed.

Lemma train_loop_fold_left (lr : float) (records : list transition)
    (vals : gmap value float) :
  PlayerAI.train_loop lr records vals
  = fold_left (PlayerAI.train_body lr) records vals.
Proof.
  revert vals. induction records as [| rec records IH]; intros vals; simpl;
    [reflexivity | apply IH].
Qed.

(** X5. [train] leaves the exploration rate, the learning rate, the reward
    log and the counters as they were.  As the history is reversed in place
    and not cleared, a second call finds it newest first: it visits the
    records from the oldest one to the most recent one and puts the history
    back in chronological order. *)
Theorem train_twice (ai : PlayerAI.t) :
  PlayerAI.eps (PlayerAI.train ai) = PlayerAI.eps ai
  /\ PlayerAI.lr (PlayerAI.train ai) = PlayerAI.lr ai
  /\ Player.rewards (PlayerAI.super (PlayerAI.train ai))
     = Player.rewards (PlayerAI.super ai)
  /\ Player.winCount (PlayerAI.super (PlayerAI.train ai))
     = Player.winCount (PlayerAI.super ai)
  /\ Player.loseCount (PlayerAI.super (PlayerAI.train ai))
     = Player.loseCount (PlayerAI.super ai)
  /\ Player.history (PlayerAI.super (PlayerAI.train (PlayerAI.train ai)))
     = Player.history (PlayerAI.super ai)
  /\ PlayerAI.values (PlayerAI.train (PlayerAI.train ai))
     = fold_left (PlayerAI.train_body (PlayerAI.lr ai))
         (Player.history (PlayerAI.super ai))
         (PlayerAI.values (PlayerAI.train ai)).
Proof.
  repeat split.
  - unfold PlayerAI.train. simpl. apply rev_involutive.
  - unfold PlayerAI.train at 1. simpl. rewrite rev_involutive.
    apply train_loop_fold_left.
Qed.

(** X6. A record whose reward is not 0 is processed without its
    [nextState]: the placeholder that the record of the losing move keeps
    has no effect on the table. *)
Theorem train_body_ignores_nextState_of_terminal_record (lr : float)
    (vals : gmap value float) (rec : transition) (n : value) :
  reward rec <> 0 ->
  PlayerAI.train_body lr vals (set_nextState n rec)
  = PlayerAI.train_body lr vals rec.
Proof.
  intros Hr. apply Z.eqb_neq in Hr. unfold PlayerAI.train_body. simpl.
  rewrite Hr. reflexivity.
Qed.

Lemma train_body_ignores_nextState_witness :
  let rec := {| action := Num 1; prevState := Num 1; nextState := NaN;
                reward := -1 |} in
  reward rec <> 0
  /\ PlayerAI.train_body 0.5%float ∅ (set_nextState (Num 0) rec)
     = PlayerAI.train_body 0.5%float ∅ rec.
Proof.
  split; [discriminate |].
  apply (train_body_ignores_nextState_of_terminal_record 0.5%float ∅
           {| action := Num 1; prevState := Num 1; nextState := NaN;
              reward := -1 |} (Num 0)).
  discriminate.
Defined.

(** ** What a turn records *)

(** X7. A turn appends exactly one record, to the history of the player
    who moved: it holds the pile before the move, the difference of the
    piles as the action, the placeholder as [nextState], and the reward
    [-1] when the game is over after the move and 0 otherwise.  The history
    of the other player keeps its length. *)
Theorem turn_appends_one_record (g : StickGame.t) (n : value) :
  let mover := StickGame.getPlayer g false in
  let opponent := StickGame.getPlayer g true in
  Player.history (StickGame.deref (StickGame.turn g n) mover)
  = Player.history (StickGame.deref g mover)
    ++ [ {| action := JS.sub (StickGame.nstick g) n;
            prevState := StickGame.nstick g;
            nextState := NaN;
            reward := if StickGame.isFinished (StickGame.turn g n)
                      then -1 else 0 |} ]
  /\ List.length (Player.history (StickGame.deref (StickGame.turn g n) opponent))
     = List.length (Player.history (StickGame.deref g opponent)).
Proof.
  intros mover opponent. unfold StickGame.isFinished. split.
  - unfold mover. rewrite turn_last_mover, turnFinished_mover, turn_finished.
    reflexivity.
  - unfold opponent. rewrite turn_next_mover.
    unfold Player.turnFinished.
    destruct (0 <? List.length _)%nat; [| reflexivity].
    destruct (JS.le n (Num 0) || StickGame.finished g); simpl;
      rewrite ?update_last_length; reflexivity.
Qed.

(** X17. Within the integers that Numbers hold exactly (a pile between 0
    and [MAX_SAFE_INTEGER], actions between 0 and [MAX_SAFE_INTEGER]): when
    the player returns one of the offered successors of a pile [p], the
    record appended for the move holds [p] as [prevState] and, as [action],
    the allowed action that leads from [p] to the returned pile. *)
Theorem recorded_action_is_an_allowed_action (g : StickGame.t) (p : Z)
    (n : value) :
  StickGame.nstick g = Num p ->
  0 <= p <= MAX_SAFE_INTEGER ->
  Forall (fun a => 0 <= a <= MAX_SAFE_INTEGER) (StickGame.actions g) ->
  offered n g = true ->
  exists (a : Z) (r : Z),
    In a (StickGame.actions g)
    /\ n = Num (p - a)
    /\ Player.history
         (StickGame.deref (StickGame.turn g n) (StickGame.getPlayer g false))
       = Player.history (StickGame.deref g (StickGame.getPlayer g false))
         ++ [ {| action := Num a; prevState := Num p; nextState := NaN;
                 reward := r |} ].
Proof.
  intros Hp _ _ Hoff. unfold offered in Hoff.
  apply existsb_exists in Hoff as (s & Hin & Hs).
  apply bool_decide_eq_true in Hs. subst s.
  unfold StickGame.possibleNStick in Hin. rewrite Hp in Hin.
  apply in_map_iff in Hin as (a & <- & Ha).
  exists a. eexists. split; [exact Ha | split; [reflexivity |]].
  rewrite turn_last_mover, turnFinished_mover, Hp.
  cbn [Player.history JS.sub]. replace (p - (p - a)) with a by lia.
  reflexivity.
Qed.

Lemma recorded_action_witness :
  StickGame.nstick Examples.pile2 = Num 2
  /\ 0 <= 2 <= MAX_SAFE_INTEGER
  /\ Forall (fun a => 0 <= a <= MAX_SAFE_INTEGER)
       (StickGame.actions Examples.pile2)
  /\ offered (Num 0) Examples.pile2 = true
  /\ exists (a : Z) (r : Z),
      In a (StickGame.actions Examples.pile2)
      /\ Num 0 = Num (2 - a)
      /\ Player.history
           (StickGame.deref (StickGame.turn Examples.pile2 (Num 0))
              (StickGame.getPlayer Examples.pile2 false))
         = Player.history
             (StickGame.deref Examples.pile2
                (StickGame.getPlayer Examples.pile2 false))
           ++ [ {| action := Num a; prevState := Num 2; nextState := NaN;
                   reward := r |} ].
Proof.
  assert (Hp : 0 <= 2 <= MAX_SAFE_INTEGER) by (split; discriminate).
  assert (Hact : Forall (fun a => 0 <= a <= MAX_SAFE_INTEGER)
                   (StickGame.actions Examples.pile2))
    by (repeat constructor; discriminate).
  split; [reflexivity | split; [exact Hp | split; [exact Hact |]]].
  split; [reflexivity |].
  exact (recorded_action_is_an_allowed_action Examples.pile2 2 (Num 0)
           eq_refl Hp Hact eq_refl).
Defined.

(** X11. [playNextTurn] does not look at [finished] before it plays, and a
    turn never clears it: a turn played on a game that is over leaves it
    over and charges its mover a loss, whatever pile [play] returns. *)
Theorem turn_on_finished_game (g : StickGame.t) (n : value) :
  StickGame.isFinished g = true ->
  let mover := StickGame.getPlayer g false in
  StickGame.isFinished (StickGame.turn g n) = true
  /\ Player.rewards (StickGame.deref (StickGame.turn g n) mover)
     = Player.rewards (StickGame.deref g mover) ++ [-1]
  /\ Player.loseCount (StickGame.deref (StickGame.turn g n) mover)
     = (Player.loseCount (StickGame.deref g mover) + 1)%nat.
Proof.
  intros Hfin mover. unfold StickGame.isFinished in *. unfold mover.
  rewrite turn_finished, turn_last_mover, turnFinished_mover, Hfin, orb_true_r.
  repeat split.
Qed.

Lemma turn_on_finished_game_witness :
  let g := StickGame.playTurns [Num 0] Examples.pile1 in
  StickGame.isFinished g = true
  /\ (let mover := StickGame.getPlayer g false in
      StickGame.isFinished (StickGame.turn g (Num 5)) = true
      /\ Player.rewards (StickGame.deref (StickGame.turn g (Num 5)) mover)
         = Player.rewards (StickGame.deref g mover) ++ [-1]
      /\ Player.loseCount (StickGame.deref (StickGame.turn g (Num 5)) mover)
         = (Player.loseCount (StickGame.deref g mover) + 1)%nat).
Proof.
  split; [reflexivity |].
  exact (turn_on_finished_game (StickGame.playTurns [Num 0] Examples.pile1)
           (Num 5) eq_refl).
Defined.

(** X12. [restart] puts the pile back to the configured size, marks the
    game in progress, makes [player1] the first mover when [startPlayer] is
    0 and [player2] otherwise, and keeps the configuration and both
    players' reward logs and counters; what an earlier [restart] chose is
    forgotten. *)
Theorem restart_resets_the_game (startPlayer : Z) (g : StickGame.t) :
  StickGame.nstick (StickGame.restart startPlayer g) = Num (StickGame.size g)
  /\ StickGame.isFinished (StickGame.restart startPlayer g) = false
  /\ StickGame.getPlayer (StickGame.restart startPlayer g) false
     = (if startPlayer =? 0 then P1 else P2)
  /\ StickGame.size (StickGame.restart startPlayer g) = StickGame.size g
  /\ StickGame.actions (StickGame.restart startPlayer g) = StickGame.actions g
  /\ (forall r,
        Player.rewards (StickGame.deref (StickGame.restart startPlayer g) r)
        = Player.rewards (StickGame.deref g r)
        /\ Player.winCount (StickGame.deref (StickGame.restart startPlayer g) r)
           = Player.winCount (StickGame.deref g r)
        /\ Player.loseCount (StickGame.deref (StickGame.restart startPlayer g) r)
           = Player.loseCount (StickGame.deref g r))
  /\ (forall startPlayer',
        StickGame.restart startPlayer (StickGame.restart startPlayer' g)
        = StickGame.restart startPlayer g).
Proof.
  split; [reflexivity | split; [reflexivity | split]].
  - unfold StickGame.restart, StickGame.getPlayer. simpl.
    destruct (startPlayer =? 0); reflexivity.
  - split; [reflexivity | split; [reflexivity | split]].
    + intros []; repeat split.
    + intros startPlayer'. reflexivity.
Qed.

(** ** The board *)

Lemma string_app_length (s t : string) :
  String.length (s +:+ t) = (String.length s + String.length t)%nat.
Proof.
  induction s as [| c s IH]; simpl; [reflexivity |].
  f_equal. exact IH.
Qed.

Lemma bars_length (n : nat) : String.length (bars n) = (2 * n)%nat.
Proof.
  induction n as [| n IH]; simpl; [reflexivity |].
  rewrite string_app_length, IH. simpl. lia.
Qed.

(** X13. [display] prints two characters per stick of the pile, and an
    empty line when the pile is not positive or not a number. *)
Theorem display_two_characters_per_stick (g : StickGame.t) :
  String.length (display g)
  = match StickGame.nstick g with
    | Num z => (2 * Z.to_nat z)%nat
    | _ => 0%nat
    end.
Proof.
  unfold display. destruct (StickGame.nstick g); [apply bars_length | |];
    reflexivity.
Qed.

(** ** The decay of the exploration rate *)

(** X14. After the decay the exploration rate is [NaN] exactly when the
    product [eps * 0.996] is, and otherwise it is at least [0.05]; the
    other fields of the agent are left as they were. *)
Theorem decay_keeps_eps_above_minimum (ai : PlayerAI.t) :
  is_nan (PlayerAI.eps (decay ai)) = is_nan (PlayerAI.eps ai * eps_decay)%float
  /\ (is_nan (PlayerAI.eps (decay ai)) = true
      \/ (eps_min <=? PlayerAI.eps (decay ai))%float = true)
  /\ PlayerAI.values (decay ai) = PlayerAI.values ai
  /\ PlayerAI.lr (decay ai) = PlayerAI.lr ai
  /\ PlayerAI.super (decay ai) = PlayerAI.super ai.
Proof.
  unfold decay. simpl. set (a := (PlayerAI.eps ai * eps_decay)%float).
  assert (Hmin : is_nan eps_min = false) by reflexivity.
  assert (Hrefl : (eps_min <=? eps_min)%float = true) by reflexivity.
  unfold Math_max. rewrite Hmin, orb_false_r.
  destruct (is_nan a) eqn:Ha.
  - repeat split. left. reflexivity.
  - destruct (a <? eps_min)%float eqn:Hlt.
    + repeat split; auto.
    + destruct (eps_min <? a)%float eqn:Hgt.
      * repeat split; auto. right. apply ltb_leb. exact Hgt.
      * destruct (get_sign a).
        -- repeat split; auto.
        -- repeat split; auto. right.
           apply leb_of_not_ltb; assumption.
Qed.

(** ** The reward log and the counters *)

Lemma sum_snoc (l : list Z) (x : Z) : sum (l ++ [x]) = sum l + x.
Proof.
  unfold sum. induction l as [| y l IH]; simpl; [lia |].
  rewrite IH. lia.
Qed.

Lemma turnFinished_consistent (isPlayerTurn isGameOver : bool)
    (prev next act : value) (p : Player.t) :
  consistent p ->
  consistent (Player.turnFinished isPlayerTurn isGameOver prev next act p).
Proof.
  intros (Hlen & Hall & Hsum). unfold Player.turnFinished.
  assert (Hsame : consistent p) by exact (conj Hlen (conj Hall Hsum)).
  assert (Hadd : forall x w l,
             (x = 1 \/ x = -1) ->
             Z.of_nat w - Z.of_nat l
             = Z.of_nat (Player.winCount p) - Z.of_nat (Player.loseCount p) + x ->
             (w + l = Player.winCount p + Player.loseCount p + 1)%nat ->
             forall h,
               consistent {| Player.history := h;
                             Player.rewards := Player.rewards p ++ [x];
                             Player.winCount := w; Player.loseCount := l |}).
  { intros x w l Hx Hd Hc h. unfold consistent.
    cbn [Player.rewards Player.winCount Player.loseCount].
    rewrite length_app, sum_snoc, Hlen, Hsum. cbn [List.length].
    split; [lia | split; [| lia]].
    apply Forall_app. split; [exact Hall | constructor; [exact Hx | constructor]]. }
  destruct isPlayerTurn.
  - destruct isGameOver; [| exact Hsame].
    apply Hadd; [right; reflexivity | lia | lia].
  - destruct (0 <? List.length (Player.history p))%nat; [| exact Hsame].
    destruct isGameOver; [| exact Hsame].
    apply Hadd; [left; reflexivity | lia | lia].
Qed.

Lemma turn_consistent (g : StickGame.t) (n : value) (r : ref) :
  consistent (StickGame.deref g r) ->
  consistent (StickGame.deref (StickGame.turn g n) r).
Proof.
  intros H. destruct (getPlayer_cases g r) as [-> | ->].
  - rewrite turn_last_mover. apply turnFinished_consistent. exact H.
  - rewrite turn_next_mover. apply turnFinished_consistent. exact H.
Qed.

Lemma playTurns_consistent (rets : list value) (g : StickGame.t) (r : ref) :
  consistent (StickGame.deref g r) ->
  consistent (StickGame.deref (StickGame.playTurns rets g) r).
Proof.
  revert g. induction rets as [| n rets IH]; intros g H; simpl.
  - exact H.
  - destruct (StickGame.isFinished g); [exact H |].
    apply IH. apply turn_consistent. exact H.
Qed.

(** X8. The statistics of a player stay consistent over any number of
    games: when the reward log holds one entry per counted win or loss,
    each of them [1] or [-1], with sum [winCount - loseCount], the same is
    true after [restart] and any sequence of turns.  A new player and a
    player whose statistics were reset start consistent. *)
Theorem statistics_stay_consistent (rets : list value) (g : StickGame.t)
    (startPlayer : Z) (r : ref) :
  consistent (StickGame.deref g r) ->
  consistent
    (StickGame.deref
       (StickGame.playTurns rets (StickGame.restart startPlayer g)) r)
  /\ consistent Player.new
  /\ (forall p, consistent (Player.resetStats p)).
Proof.
  intros H. split; [| split].
  - apply playTurns_consistent. destruct r; exact H.
  - unfold consistent. simpl. repeat split. constructor.
  - intros p. unfold consistent. simpl. repeat split. constructor.
Qed.

Lemma statistics_stay_consistent_witness :
  let g' := StickGame.playTurns [Num 2; Num 1; Num 0]
              (StickGame.restart 0 Examples.game3) in
  consistent (StickGame.deref Examples.game3 P2)
  /\ Player.rewards (StickGame.deref g' P2) = [1]
  /\ Player.winCount (StickGame.deref g' P2) = 1%nat
  /\ consistent (StickGame.deref g' P2).
Proof.
  assert (H : consistent (StickGame.deref Examples.game3 P2)).
  { unfold consistent. simpl. repeat split. constructor. }
  split; [exact H | split; [reflexivity | split; [reflexivity |]]].
  exact (proj1 (statistics_stay_consistent [Num 2; Num 1; Num 0]
                  Examples.game3 0 P2 H)).
Defined.

(** ** The pile under legal play *)

Lemma turn_actions (g : StickGame.t) (n : value) :
  StickGame.actions (StickGame.turn g n) = StickGame.actions g.
Proof.
  unfold StickGame.turn. simpl. destruct (JS.le n (Num 0)); reflexivity.
Qed.

(** From a pile [p] in progress, with actions that take at least one
    stick. *)
Lemma playTurns_pile (rets : list value) :
  forall (g : StickGame.t) (p : Z),
    Forall (fun a => 1 <= a) (StickGame.actions g) ->
    StickGame.nstick g = Num p ->
    StickGame.finished g = false ->
    legal rets g = true ->
    exists p',
      StickGame.nstick (StickGame.playTurns rets g) = Num p'
      /\ p' <= p
      /\ (StickGame.finished (StickGame.playTurns rets g) = false ->
          p' + Z.of_nat (List.length rets) <= p /\ (0 < p -> 0 < p'))
      /\ (StickGame.finished (StickGame.playTurns rets g) = true -> p' <= 0).
Proof.
  induction rets as [| n rets IH]; intros g p Hact Hp Hfin Hlegal.
  - simpl. exists p. rewrite Hfin. split; [exact Hp | split; [lia | split]].
    + intros _. split; [lia | auto].
    + discriminate.
  - simpl in Hlegal. unfold StickGame.isFinished in Hlegal.
    rewrite Hfin in Hlegal. simpl in Hlegal.
    apply andb_prop in Hlegal as [Hin Hlegal].
    unfold offered in Hin. apply existsb_exists in Hin as (s & Hin & Hs).
    apply bool_decide_eq_true in Hs. subst s.
    unfold StickGame.possibleNStick in Hin. rewrite Hp in Hin.
    apply in_map_iff in Hin as (a & <- & Ha).
    rewrite List.Forall_forall in Hact. pose proof (Hact a Ha) as Ha1.
    simpl JS.sub in *. simpl StickGame.playTurns.
    unfold StickGame.isFinished. rewrite Hfin.
    destruct (p - a <=? 0) eqn:Hle.
    + apply Z.leb_le in Hle.
      assert (Hfin' : StickGame.finished (StickGame.turn g (Num (p - a))) = true).
      { rewrite turn_finished. simpl. apply orb_true_iff. left.
        apply Z.leb_le. exact Hle. }
      rewrite (playTurns_finished rets _ Hfin'), Hfin', turn_nstick.
      exists (p - a). split; [reflexivity | split; [lia | split]].
      * discriminate.
      * intros _. exact Hle.
    + apply Z.leb_gt in Hle.
      destruct (IH (StickGame.turn g (Num (p - a))) (p - a))
        as (p' & Hp' & Hle' & Hprog & Hover).
      * rewrite turn_actions. apply List.Forall_forall. exact Hact.
      * apply turn_nstick.
      * rewrite turn_finished, Hfin. simpl. apply orb_false_iff.
        split; [apply Z.leb_gt; exact Hle | reflexivity].
      * exact Hlegal.
      * exists p'. split; [exact Hp' | split; [lia | split]].
        -- intros H. destruct (Hprog H) as [H1 H2].
           split; [simpl List.length; lia | intros _; apply H2; lia].
        -- exact Hover.
Qed.

Lemma actions_take_a_stick (g : StickGame.t) :
  Forall (fun a => 1 <= a <= MAX_SAFE_INTEGER) (StickGame.actions g) ->
  Forall (fun a => 1 <= a) (StickGame.actions g).
Proof.
  intros H. eapply Forall_impl; [exact H |]. intros a [Ha _]. exact Ha.
Qed.

(** X9. Within the integers that Numbers hold exactly (a size and actions
    of at most [MAX_SAFE_INTEGER]): when the configured size is positive,
    every action takes at least one stick and the players return offered
    successors, the pile is an integer that never exceeds the size; while
    the game is in progress it is positive and has lost at least one stick
    per turn played, and when the game is over it is at most 0. *)
Theorem pile_under_legal_play (g : StickGame.t) (startPlayer : Z)
    (rets : list value) :
  0 < StickGame.size g <= MAX_SAFE_INTEGER ->
  Forall (fun a => 1 <= a <= MAX_SAFE_INTEGER) (StickGame.actions g) ->
  legal rets (StickGame.restart startPlayer g) = true ->
  let g' := StickGame.playTurns rets (StickGame.restart startPlayer g) in
  exists p,
    StickGame.nstick g' = Num p
    /\ p <= StickGame.size g
    /\ (StickGame.isFinished g' = false ->
        0 < p /\ p + Z.of_nat (List.length rets) <= StickGame.size g)
    /\ (StickGame.isFinished g' = true -> p <= 0).
Proof.
  intros [Hsize _] Hact Hlegal g'. apply actions_take_a_stick in Hact.
  destruct (playTurns_pile rets (StickGame.restart startPlayer g)
              (StickGame.size g) Hact eq_refl eq_refl Hlegal)
    as (p & Hp & Hle & Hprog & Hover).
  exists p. unfold StickGame.isFinished.
  split; [exact Hp | split; [exact Hle | split; [| exact Hover]]].
  intros H. destruct (Hprog H) as [H1 H2]. split; [apply H2; exact Hsize | exact H1].
Qed.

Lemma pile_under_legal_play_witness :
  let g := Examples.game3 in
  let rets := [Num 2; Num 1] in
  let g' := StickGame.playTurns rets (StickGame.restart 0 g) in
  0 < StickGame.size g <= MAX_SAFE_INTEGER
  /\ Forall (fun a => 1 <= a <= MAX_SAFE_INTEGER) (StickGame.actions g)
  /\ legal rets (StickGame.restart 0 g) = true
  /\ StickGame.nstick g' = Num 1
  /\ exists p,
      StickGame.nstick g' = Num p
      /\ p <= StickGame.size g
      /\ (StickGame.isFinished g' = false ->
          0 < p /\ p + Z.of_nat (List.length rets) <= StickGame.size g)
      /\ (StickGame.isFinished g' = true -> p <= 0).
Proof.
  assert (Hsize : 0 < StickGame.size Examples.game3 <= MAX_SAFE_INTEGER)
    by (split; [reflexivity | discriminate]).
  assert (Hact : Forall (fun a => 1 <= a <= MAX_SAFE_INTEGER)
                   (StickGame.actions Examples.game3))
    by (repeat constructor; discriminate).
  assert (Hlegal : legal [Num 2; Num 1] (StickGame.restart 0 Examples.game3)
                   = true) by reflexivity.
  split; [exact Hsize | split; [exact Hact | split; [exact Hlegal |]]].
  split; [reflexivity |].
  exact (pile_under_legal_play Examples.game3 0 [Num 2; Num 1]
           Hsize Hact Hlegal).
Defined.

(** X10. The loop [while (!game.isFinished()) game.playNextTurn()] ends:
    within the integers that Numbers hold exactly (a size and actions of at
    most [MAX_SAFE_INTEGER]), when the configured size is positive, every
    action takes at least one stick and the players return offered
    successors, the game is over after at most [size] turns. *)
Theorem game_ends_within_size_turns (g : StickGame.t) (startPlayer : Z)
    (rets : list value) :
  0 < StickGame.size g <= MAX_SAFE_INTEGER ->
  Forall (fun a => 1 <= a <= MAX_SAFE_INTEGER) (StickGame.actions g) ->
  legal rets (StickGame.restart startPlayer g) = true ->
  StickGame.size g <= Z.of_nat (List.length rets) ->
  StickGame.isFinished
    (StickGame.playTurns rets (StickGame.restart startPlayer g)) = true.
Proof.
  intros [Hsize _] Hact Hlegal Hlen. apply actions_take_a_stick in Hact.
  destruct (playTurns_pile rets (StickGame.restart startPlayer g)
              (StickGame.size g) Hact eq_refl eq_refl Hlegal)
    as (p & Hp & Hle & Hprog & Hover).
  unfold StickGame.isFinished.
  destruct (StickGame.finished _); [reflexivity |].
  destruct (Hprog eq_refl) as [H1 H2]. specialize (H2 Hsize). lia.
Qed.

Lemma game_ends_within_size_turns_witness :
  let g := Examples.game3 in
  let rets := [Num 2; Num 1; Num 0] in
  0 < StickGame.size g <= MAX_SAFE_INTEGER
  /\ Forall (fun a => 1 <= a <= MAX_SAFE_INTEGER) (StickGame.actions g)
  /\ legal rets (StickGame.restart 0 g) = true
  /\ StickGame.size g <= Z.of_nat (List.length rets)
  /\ StickGame.isFinished (StickGame.playTurns rets (StickGame.restart 0 g))
     = true.
Proof.
  assert (Hsize : 0 < StickGame.size Examples.game3 <= MAX_SAFE_INTEGER)
    by (split; [reflexivity | discriminate]).
  assert (Hact : Forall (fun a => 1 <= a <= MAX_SAFE_INTEGER)
                   (StickGame.actions Examples.game3))
    by (repeat constructor; discriminate).
  assert (Hlegal : legal [Num 2; Num 1; Num 0]
                     (StickGame.restart 0 Examples.game3) = true)
    by reflexivity.
  assert (Hlen : StickGame.size Examples.game3
                 <= Z.of_nat (List.length [Num 2; Num 1; Num 0]))
    by discriminate.
  split; [exact Hsize | split; [exact Hact | split; [exact Hlegal |]]].
  split; [exact Hlen |].
  exact (game_ends_within_size_turns Examples.game3 0 [Num 2; Num 1; Num 0]
           Hsize Hact Hlegal Hlen).
Defined.

(** ** Whose turn it is *)

Lemma playTurns_player (rets : list value) :
  forall g : StickGame.t,
    StickGame.finished (StickGame.playTurns rets g) = false ->
    StickGame.player (StickGame.playTurns rets g)
    = xorb (Nat.odd (List.length rets)) (StickGame.player g).
Proof.
  induction rets as [| n rets IH]; intros g Hfin.
  - simpl. destruct (StickGame.player g); reflexivity.
  - simpl in *. unfold StickGame.isFinished in *.
    destruct (StickGame.finished g) eqn:Hg; [congruence |].
    rewrite (IH _ Hfin), turn_player.
    change (Nat.odd (S (List.length rets))) with (negb (Nat.odd (List.length rets))) at 1 || idtac.
    rewrite Nat.odd_succ, <- Nat.negb_odd.
    destruct (Nat.odd (List.length rets)), (StickGame.player g); reflexivity.
Qed.

(** X16. The players alternate: while the game is in progress after the
    turns played since [restart], the player to move is the one chosen by
    [startPlayer] when their number is even and the other one when it is
    odd. *)
Theorem players_alternate (g : StickGame.t) (startPlayer : Z)
    (rets : list value) :
  let g' := StickGame.playTurns rets (StickGame.restart startPlayer g) in
  StickGame.isFinished g' = false ->
  StickGame.getPlayer g' false
  = (if Nat.even (List.length rets)
     then StickGame.getPlayer (StickGame.restart startPlayer g) false
     else StickGame.getPlayer (StickGame.restart startPlayer g) true).
Proof.
  intros g' Hfin. unfold StickGame.getPlayer. unfold g'.
  rewrite (playTurns_player rets _ Hfin), <- Nat.negb_odd.
  destruct (Nat.odd (List.length rets)),
    (StickGame.player (StickGame.restart startPlayer g)); reflexivity.
Qed.

Lemma players_alternate_witness :
  let g' := StickGame.playTurns [Num 2] (StickGame.restart 0 Examples.game3) in
  StickGame.isFinished g' = false
  /\ StickGame.getPlayer g' false = P2.
Proof.
  split; [reflexivity |].
  exact (players_alternate Examples.game3 0 [Num 2] eq_refl).
Defined.

(** ** The verdict of the interactive loop *)

(** X15. At the end of a round of the interactive loop, where the human is
    [player1] and moves first, the program announces "Game Over..." exactly
    when the human made the last move and the agent had moved before; when
    the agent made the last move, and also when the human's very first move
    ended the game, it announces "You win !". *)
Theorem main_round_verdict (g : StickGame.t) (rets : list value) :
  let g' := main_round rets g in
  StickGame.isFinished g' = true ->
  verdict g'
  = if first_move_ends rets then "You win !"
    else match StickGame.getPlayer g' true with
         | P1 => "Game Over..."
         | P2 => "You win !"
         end.
Proof.
  intros g' Hfin.
  set (g0 := StickGame.call P2 Player.resetStats g).
  assert (Hall : Forall (fun _ : value => True) rets)
    by (apply List.Forall_forall; intros; exact I).
  pose proof (playTurns_invariant _ g0 rets Hall _ _
                (restart_in_progress _ g0 0)) as Hinv.
  change (StickGame.playTurns rets (StickGame.restart 0 g0)) with g' in Hinv.
  unfold StickGame.isFinished in Hfin. rewrite Hfin in Hinv.
  destruct Hinv as (_ & (_ & Hlw & _) & _ & Hwin).
  assert (Hmoved : Inv.winner_moved false rets = negb (first_move_ends rets)).
  { destruct rets as [| n rets]; [| reflexivity].
    unfold g', main_round in Hfin. simpl in Hfin. discriminate Hfin. }
  rewrite Hmoved in Hwin. unfold verdict.
  pose proof (getPlayer_distinct g') as Hne.
  destruct (StickGame.getPlayer g' true) eqn:Hloser.
  - destruct (StickGame.getPlayer g' false) eqn:Hwinner; [congruence |].
    simpl in Hwin. destruct (first_move_ends rets); simpl in Hwin.
    + destruct Hwin as [(_ & Hw & _) _]. rewrite Hw. reflexivity.
    + destruct Hwin as [(_ & Hw & _) _]. rewrite Hw. reflexivity.
  - simpl in Hlw. rewrite Hlw.
    destruct (first_move_ends rets); reflexivity.
Qed.

Lemma main_round_verdict_witness :
  let g' := main_round [Num 2; Num 1; Num 0] Examples.game3 in
  StickGame.isFinished g' = true
  /\ StickGame.getPlayer g' true = P1
  /\ verdict g' = "Game Over...".
Proof.
  split; [reflexivity | split; [reflexivity |]].
  exact (main_round_verdict Examples.game3 [Num 2; Num 1; Num 0] eq_refl).
Defined.
